(** * Live interpretation session engine (websocket-server.js)

    A shallow embedding of the WebSocket live-interpretation server:
    the text heuristics ([detectLanguageFromText], [getTargetLanguage]),
    the [InterpreterSession] class with its asynchronous pipeline
    ([processAudioChunk], [processAccumulatedAudio]), the connection
    handlers and the idle-session sweep.

    Conventions.
    - A JavaScript string is the list of its UTF-16 code units.
    - [Date.now()] is an input: every event carries the clock value read
      while it is handled.
    - An [async] method is cut at its [await]s.  What runs between two
      suspension points is one atomic transition of the session; a call
      that is awaited is a [Flight] stored in the world until the provider
      answers.
    - Provider calls, timers and frames written to the socket are recorded,
      in program order, as the [Effect]s of a transition.
    - Frames are well typed ([samples] and [sampleRate] integers, [pcm16]
      a string).  The synchronous part of a flush (concatenation, WAV
      header, temporary file) throws when the header cannot hold the
      sample rate, and otherwise when the [Runtime] says so; console
      output is left out.
    - Sample counts are summed and divided exactly where the source uses
      doubles; [doubleExact] is the range in which both agree, and the
      statements about the duration threshold carry it. *)

From Stdlib Require Import ZArith NArith QArith List String Ascii Bool Lia.
From stdpp Require Import gmap list.
Import ListNotations.

#[local] Open Scope Z_scope.

(** ** JavaScript strings *)

Module JsString.

Definition jsstring : Type := list N.

(** A string literal of the source, as code units. *)
Definition js (s : string) : jsstring :=
  List.map N_of_ascii (list_ascii_of_string s).

(** ECMAScript WhiteSpace and LineTerminator code points, the ones
    [String.prototype.trim] strips. *)
Definition isWhiteSpace (c : N) : bool :=
  ((0x0009 <=? c) && (c <=? 0x000D))%N
  || (c =? 0x0020)%N || (c =? 0x00A0)%N || (c =? 0x1680)%N
  || ((0x2000 <=? c) && (c <=? 0x200A))%N
  || (c =? 0x2028)%N || (c =? 0x2029)%N || (c =? 0x202F)%N
  || (c =? 0x205F)%N || (c =? 0x3000)%N || (c =? 0xFEFF)%N.

Fixpoint trimStart (s : jsstring) : jsstring :=
  match s with
  | [] => []
  | c :: rest => if isWhiteSpace c then trimStart rest else s
  end.

Definition trimEnd (s : jsstring) : jsstring := rev (trimStart (rev s)).

Definition trim (s : jsstring) : jsstring := trimEnd (trimStart s).

(** [!text] on a string: only the empty string is falsy. *)
Definition falsy (s : jsstring) : bool :=
  match s with [] => true | _ => false end.

(** [/[\ulo-\uhi]/.test(text)]: some code unit lies in the range. *)
Definition testRange (lo hi : N) (text : jsstring) : bool :=
  existsb (fun c => (lo <=? c) && (c <=? hi))%N text.

Definition eqb (a b : jsstring) : bool := bool_decide (a = b).

End JsString.
Import JsString.

(** ** Language detection and mapping *)

Definition arabicPattern (text : jsstring) : bool := testRange 0x0600 0x06FF text.
Definition urduPattern (text : jsstring) : bool := testRange 0x0600 0x06FF text.
Definition chinesePattern (text : jsstring) : bool := testRange 0x4e00 0x9fff text.
Definition japanesePattern (text : jsstring) : bool :=
  testRange 0x3040 0x309f text || testRange 0x30a0 0x30ff text.
Definition koreanPattern (text : jsstring) : bool := testRange 0xac00 0xd7af text.
Definition russianPattern (text : jsstring) : bool := testRange 0x0400 0x04FF text.

Definition detectLanguageFromText (text : jsstring) : jsstring :=
  if falsy text || (length (trim text) =? 0)%nat then js "en"
  else if arabicPattern text then js "ar"
  else if urduPattern text then js "ur"
  else if chinesePattern text then js "zh"
  else if japanesePattern text then js "ja"
  else if koreanPattern text then js "ko"
  else if russianPattern text then js "ru"
  else js "en".


Record LangInfo : Type := { name : jsstring; whisper : jsstring; google : jsstring }.

Definition lang (code full : string) : jsstring * LangInfo :=
  (js code, {| name := js full; whisper := js code; google := js code |}).

Definition LANGUAGE_MAPPING : list (jsstring * LangInfo) :=
  [ lang "en" "English"; lang "es" "Spanish"; lang "fr" "French";
    lang "de" "German"; lang "it" "Italian"; lang "pt" "Portuguese";
    lang "ru" "Russian"; lang "ja" "Japanese"; lang "ko" "Korean";
    lang "zh" "Chinese"; lang "hi" "Hindi"; lang "ar" "Arabic";
    lang "ur" "Urdu"; lang "tr" "Turkish"; lang "pl" "Polish";
    lang "nl" "Dutch"; lang "sv" "Swedish"; lang "da" "Danish";
    lang "no" "Norwegian"; lang "fi" "Finnish" ].

(** [LANGUAGE_MAPPING[code]], [None] for [undefined]. *)
Definition mapping (code : jsstring) : option LangInfo :=
  match List.find (fun e => eqb (fst e) code) LANGUAGE_MAPPING with
  | Some e => Some (snd e)
  | None => None
  end.

(** The session configuration stored by the [start] handler.  [sampleRate]
    is [None] when the frame carries none. *)
Record Config : Type := {
  from : jsstring;
  to : jsstring;
  mode : jsstring;
  sampleRate : option Z
}.

Definition getTargetLanguage (detectedLang : jsstring) (sessionConfig : Config)
  : jsstring :=
  let from := from sessionConfig in
  let to := to sessionConfig in
  if eqb (mode sessionConfig) (js "alternate") then
    if eqb from (js "auto") && eqb to (js "auto") then
      if eqb detectedLang (js "en") then js "es" else js "en"
    else if eqb from (js "auto") then to
    else if eqb to (js "auto") then
      if negb (eqb from detectedLang) then from else js "en"
    else if eqb detectedLang from then to else from
  else if eqb to (js "auto") then js "en" else to.

(** ** Node buffers

    A [Buffer] is the list of its bytes.  Writes are in place and never
    grow the buffer; the integer writers throw a [RangeError] (here
    [None]) on a value outside the field or an offset outside the
    buffer. *)

Module Buffer.

Definition alloc (size : nat) : list Z := repeat 0 size.

(** Overwrite the front of [buf] with [bs], as far as [buf] goes. *)
Fixpoint overwrite (bs buf : list Z) : list Z :=
  match bs, buf with
  | b :: bs', _ :: buf' => b :: overwrite bs' buf'
  | _, _ => buf
  end.

Fixpoint writeAt (offset : nat) (bs buf : list Z) : list Z :=
  match offset, buf with
  | O, _ => overwrite bs buf
  | S k, b :: rest => b :: writeAt k bs rest
  | S _, [] => []
  end.

(** [buf.write(string, offset)] for an ASCII literal. *)
Definition write (s : string) (offset : nat) (buf : list Z) : list Z :=
  writeAt offset (List.map Z.of_N (js s)) buf.

(** The bytes [buf[offset++] = value; value = value >>> 8; ...] stores. *)
Definition le16 (value : Z) : list Z :=
  [Z.land value 255; Z.land (Z.shiftr value 8) 255].

Definition le32 (value : Z) : list Z :=
  [Z.land value 255; Z.land (Z.shiftr value 8) 255;
   Z.land (Z.shiftr value 16) 255; Z.land (Z.shiftr value 24) 255].

Definition writeUInt32LE (value : Z) (offset : nat) (buf : list Z) : option (list Z) :=
  if (0 <=? value) && (value <=? 4294967295) && (offset + 4 <=? length buf)%nat
  then Some (writeAt offset (le32 value) buf)
  else None.

Definition writeUInt16LE (value : Z) (offset : nat) (buf : list Z) : option (list Z) :=
  if (0 <=? value) && (value <=? 65535) && (offset + 2 <=? length buf)%nat
  then Some (writeAt offset (le16 value) buf)
  else None.

(** [source.copy(target, targetStart)]. *)
Definition copy (source target : list Z) (targetStart : nat) : list Z :=
  writeAt targetStart source target.

Definition readUInt32LE (buf : list Z) (offset : nat) : option Z :=
  match drop offset buf with
  | b0 :: b1 :: b2 :: b3 :: _ =>
      Some (b0 + b1 * 2 ^ 8 + b2 * 2 ^ 16 + b3 * 2 ^ 24)
  | _ => None
  end.

Definition readUInt16LE (buf : list Z) (offset : nat) : option Z :=
  match drop offset buf with
  | b0 :: b1 :: _ => Some (b0 + b1 * 2 ^ 8)
  | _ => None
  end.

End Buffer.

(** ** pcm16ToWav *)

Section Wav.

(** [Buffer.from(s, 'base64')], the decoder of the runtime. *)
Variable fromBase64 : jsstring -> list Z.

Definition wavHeaderSize : nat := 44.

(** [None] when one of the integer writers throws. *)
Definition pcm16ToWav (base64Pcm : jsstring) (sampleRate channels : Z)
  : option (list Z) :=
  let pcmBuffer := fromBase64 base64Pcm in
  let size := Z.of_nat (length pcmBuffer) in
  let wavBuffer := Buffer.alloc (wavHeaderSize + length pcmBuffer) in
  let wavBuffer := Buffer.write "RIFF" 0 wavBuffer in
  wavBuffer ← Buffer.writeUInt32LE (36 + size) 4 wavBuffer;
  let wavBuffer := Buffer.write "WAVE" 8 wavBuffer in
  let wavBuffer := Buffer.write "fmt " 12 wavBuffer in
  wavBuffer ← Buffer.writeUInt32LE 16 16 wavBuffer;
  wavBuffer ← Buffer.writeUInt16LE 1 20 wavBuffer;
  wavBuffer ← Buffer.writeUInt16LE channels 22 wavBuffer;
  wavBuffer ← Buffer.writeUInt32LE sampleRate 24 wavBuffer;
  wavBuffer ← Buffer.writeUInt32LE (sampleRate * channels * 2) 28 wavBuffer;
  wavBuffer ← Buffer.writeUInt16LE (channels * 2) 32 wavBuffer;
  wavBuffer ← Buffer.writeUInt16LE 16 34 wavBuffer;
  let wavBuffer := Buffer.write "data" 36 wavBuffer in
  wavBuffer ← Buffer.writeUInt32LE size 40 wavBuffer;
  Some (Buffer.copy pcmBuffer wavBuffer wavHeaderSize).

(** The 44 bytes in front of the samples. *)
Definition wavHeader (size sampleRate channels : Z) : list Z :=
  List.map Z.of_N (js "RIFF") ++ Buffer.le32 (36 + size)
  ++ List.map Z.of_N (js "WAVE") ++ List.map Z.of_N (js "fmt ")
  ++ Buffer.le32 16 ++ Buffer.le16 1 ++ Buffer.le16 channels
  ++ Buffer.le32 sampleRate ++ Buffer.le32 (sampleRate * channels * 2)
  ++ Buffer.le16 (channels * 2) ++ Buffer.le16 16
  ++ List.map Z.of_N (js "data") ++ Buffer.le32 size.

(** The values every integer field of the header can hold. *)
Definition wavFits (size sampleRate channels : Z) : bool :=
  (36 + size <=? 4294967295)
  && (0 <=? channels) && (channels * 2 <=? 65535)
  && (0 <=? sampleRate) && (sampleRate <=? 4294967295)
  && (sampleRate * channels * 2 <=? 4294967295).

End Wav.

(** ** Session data *)

Inductive State : Type := idle | listening | translating | playing | paused.

#[export] Instance State_eq_dec : EqDecision State.
Proof. solve_decision. Defined.

Record Chunk : Type := { base64Pcm : jsstring; samples : Z; timestamp : Z }.

(** The fields of an [InterpreterSession] object, [ws] apart. *)
Record Session : Type := {
  sessionId : jsstring;
  config : Config;
  state : State;
  audioBuffer : list Chunk;
  vadState : jsstring;
  isActive : bool;
  lastActivity : Z
}.

(** [ws.readyState]. *)
Inductive ReadyState : Type := CONNECTING | OPEN | CLOSING | CLOSED.

(** Frames written to the client. *)
Inductive Msg : Type :=
| status (newState : State) (dir : option jsstring)
| partial (text : jsstring)
| final (asr mt lid : jsstring)
| error (message : jsstring).

(** What a rejected provider promise carries.  The source reads only
    [message]; [kind] is the provider's own classification of the failure
    (transient, quota, credentials, bad input). *)
Inductive ErrorKind : Type := transient | quotaExceeded | auth | invalidInput.

Record ProviderError : Type := { kind : ErrorKind; message : jsstring }.

Inductive Timer : Type := graceDelay | playback.

(** Calls that leave the session, in program order. *)
Inductive Effect : Type :=
| wsSend (m : Msg)
| transcribe (segment : list Chunk) (rate : Z) (language : option jsstring)
| translateCall (text from to : jsstring)
| chatCall (fromName toName text : jsstring) (max_tokens : Z)
| setTimeout (t : Timer) (ms : Z).

(** A suspended [processAccumulatedAudio]: the [await] it sits at and the
    locals that are live there. *)
Inductive Flight : Type :=
| awaitTranscription
| awaitTranslate (transcribedText detectedLang targetLang : jsstring)
| awaitChat (transcribedText detectedLang targetLang : jsstring).

(** How an awaited provider call settles. *)
Inductive Settled : Type :=
| transcription (text : option jsstring)
| transcriptionFailed (e : ProviderError)
| translation (text : jsstring)
| translateFailed (googleError : ProviderError)
| completion (content : jsstring)
| completionFailed (e : ProviderError).

(** What the runtime answers to the synchronous part of a flush, apart
    from the header check of [pcm16ToWav] on the sample rate: [faulty]
    when [Buffer.concat], [Buffer.alloc], a size field of the header,
    [fs.mkdirSync] or [fs.writeFileSync] throws (a segment too large for a
    buffer or for the header, a session id with a path separator that
    names no directory, a full disk), and [faultMessage], the [message] of
    whatever error the synchronous part throws, the [RangeError] of the
    header check included: its wording is the runtime's. *)
Record Runtime : Type := { faulty : bool; faultMessage : jsstring }.

(** One session object with its socket, the pipeline invocations it has
    suspended, the timers it has armed, and the runtime it runs on. *)
Record World : Type := {
  session : Session;
  readyState : ReadyState;
  flights : list Flight;
  graceTimers : nat;
  playbackTimers : list Z;
  runtime : Runtime
}.

Definition with_session (f : Session -> Session) (w : World) : World :=
  {| session := f (session w); readyState := readyState w;
     flights := flights w; graceTimers := graceTimers w;
     playbackTimers := playbackTimers w;
     runtime := runtime w |}.

Definition with_flights (f : list Flight -> list Flight) (w : World) : World :=
  {| session := session w; readyState := readyState w;
     flights := f (flights w); graceTimers := graceTimers w;
     playbackTimers := playbackTimers w;
     runtime := runtime w |}.

Definition with_graceTimers (f : nat -> nat) (w : World) : World :=
  {| session := session w; readyState := readyState w;
     flights := flights w; graceTimers := f (graceTimers w);
     playbackTimers := playbackTimers w;
     runtime := runtime w |}.

Definition with_playbackTimers (f : list Z -> list Z) (w : World) : World :=
  {| session := session w; readyState := readyState w;
     flights := flights w; graceTimers := graceTimers w;
     playbackTimers := f (playbackTimers w);
     runtime := runtime w |}.

Definition with_readyState (r : ReadyState) (w : World) : World :=
  {| session := session w; readyState := r;
     flights := flights w; graceTimers := graceTimers w;
     playbackTimers := playbackTimers w;
     runtime := runtime w |}.

Definition with_runtime (rt : Runtime) (w : World) : World :=
  {| session := session w; readyState := readyState w;
     flights := flights w; graceTimers := graceTimers w;
     playbackTimers := playbackTimers w; runtime := rt |}.

Definition set_state (v : State) (s : Session) : Session :=
  {| sessionId := sessionId s; config := config s; state := v;
     audioBuffer := audioBuffer s; vadState := vadState s;
     isActive := isActive s; lastActivity := lastActivity s |}.

Definition set_config (v : Config) (s : Session) : Session :=
  {| sessionId := sessionId s; config := v; state := state s;
     audioBuffer := audioBuffer s; vadState := vadState s;
     isActive := isActive s; lastActivity := lastActivity s |}.

Definition set_audioBuffer (v : list Chunk) (s : Session) : Session :=
  {| sessionId := sessionId s; config := config s; state := state s;
     audioBuffer := v; vadState := vadState s;
     isActive := isActive s; lastActivity := lastActivity s |}.

Definition set_vadState (v : jsstring) (s : Session) : Session :=
  {| sessionId := sessionId s; config := config s; state := state s;
     audioBuffer := audioBuffer s; vadState := v;
     isActive := isActive s; lastActivity := lastActivity s |}.

Definition set_isActive (v : bool) (s : Session) : Session :=
  {| sessionId := sessionId s; config := config s; state := state s;
     audioBuffer := audioBuffer s; vadState := vadState s;
     isActive := v; lastActivity := lastActivity s |}.

Definition set_lastActivity (v : Z) (s : Session) : Session :=
  {| sessionId := sessionId s; config := config s; state := state s;
     audioBuffer := audioBuffer s; vadState := vadState s;
     isActive := isActive s; lastActivity := v |}.

(** ** Actions

    A method body, or the stretch of one between two suspension points:
    it updates the world and records its effects. *)

Definition Act : Type := World -> World * list Effect.

Definition skip : Act := fun w => (w, []).

Definition seq (a b : Act) : Act :=
  fun w => let '(w1, o1) := a w in
           let '(w2, o2) := b w1 in
           (w2, o1 ++ o2).

Definition modify (f : World -> World) : Act := fun w => (f w, []).

Definition emit (e : Effect) : Act := fun w => (w, [e]).

(** An effect whose arguments are read from the object. *)
Definition call (e : World -> Effect) : Act := fun w => (w, [e w]).

(** [if (c) { a } else { b }]. *)
Definition cond (c : World -> bool) (a b : Act) : Act :=
  fun w => if c w then a w else b w.

Declare Scope act_scope.
Notation "a ;; b" := (seq a b)
  (at level 100, b at level 200, right associativity) : act_scope.
#[local] Open Scope act_scope.

(** ** InterpreterSession

    The [start] handler constructs the object, stores [config] and calls
    [updateState('listening')] without yielding, so no other handler ever
    sees the object without its configuration: the constructor below takes
    the configuration with it. *)

#[export] Instance ReadyState_eq_dec : EqDecision ReadyState.
Proof. solve_decision. Defined.

(** [this.ws.readyState === WebSocket.OPEN && this.isActive], the guard
    of [send]. *)
Definition deliverable (w : World) : bool :=
  bool_decide (readyState w = OPEN) && isActive (session w).

Section Methods.

(** The value [Date.now()] has while the current handler runs. *)
Variable now : Z.

Definition InterpreterSession (sessionId : jsstring) (cfg : Config) : Session :=
  {| sessionId := sessionId; config := cfg; state := idle;
     audioBuffer := []; vadState := js "silence";
     isActive := true; lastActivity := now |}.

Definition send (message : Msg) : Act := fun w =>
  if deliverable w
  then (with_session (set_lastActivity now) w, [wsSend message])
  else (w, []).

(** [...(direction && { dir: direction })]. *)
Definition dirField (direction : option jsstring) : option jsstring :=
  match direction with
  | Some d => if falsy d then None else Some d
  | None => None
  end.

Definition updateState (newState : State) (direction : option jsstring) : Act :=
  modify (with_session (set_state newState)) ;;
  send (status newState (dirField direction)).

Definition sendPartial (text : jsstring) : Act := send (partial text).

Definition sendFinal (asr translation detectedLang : jsstring) : Act :=
  send (final asr translation detectedLang).

Definition sendError (message : jsstring) : Act := send (error message).

(** [audioBuffer.reduce((sum, chunk) => sum + chunk.samples, 0)]. *)
Definition totalSamples (buffer : list Chunk) : Z :=
  fold_left (fun sum chunk => sum + samples chunk) buffer 0.

(** [this.config?.sampleRate || 16000]. *)
Definition rateOf (s : Session) : Z :=
  match sampleRate (config s) with
  | Some r => if r =? 0 then 16000 else r
  | None => 16000
  end.

(** [(totalSamples / sampleRate) * 1000], as an exact rational.  The
    source computes it in double precision; for sample counts and rates
    below 2^52 the comparison with 1500 has the same outcome. *)
Definition durationMs (s : Session) : Q :=
  Qmult (Qdiv (inject_Z (totalSamples (audioBuffer s))) (inject_Z (rateOf s)))
        (inject_Z 1000).

(** The [language] option of the transcription request. *)
Definition whisperLanguage (s : Session) : option jsstring :=
  if negb (eqb (from (config s)) (js "auto"))
  then option_map whisper (mapping (from (config s)))
  else None.

(** The synchronous part of a flush throws: [pcm16ToWav] is called with
    one channel and raises a [RangeError] when the header cannot hold the
    rate, whatever the samples; otherwise the runtime decides. *)
Definition assemblyThrows (w : World) : bool :=
  faulty (runtime w) || negb (wavFits 0 (rateOf (session w)) 1).

(** The outer [finally] of [processAccumulatedAudio]. *)
Definition clearBuffer : Act :=
  modify (with_session (fun s => set_vadState (js "silence") (set_audioBuffer [] s))).

(** The synchronous part threw: the outer [catch], then the outer
    [finally]. *)
Definition assemblyFailed : Act :=
  (fun w => sendError (js "Processing failed: " ++ faultMessage (runtime w)) w) ;;
  updateState listening None ;;
  clearBuffer.

(** The transcription request is made and the invocation suspends. *)
Definition requestTranscription : Act :=
  call (fun w => transcribe (audioBuffer (session w)) (rateOf (session w))
                            (whisperLanguage (session w))) ;;
  modify (with_flights (fun fs => fs ++ [awaitTranscription])).

(** [processAccumulatedAudio] up to its first [await].  The segment is
    assembled from the whole buffer, wrapped by [pcm16ToWav] and written to
    a temporary file; when that throws, the outer [catch] and [finally]
    run at once and no call is made.  Otherwise the file is handed to the
    transcription provider; it is not modelled beyond the chunks it is
    built from. *)
Definition processAccumulatedAudio : Act :=
  cond (fun w => (length (audioBuffer (session w)) =? 0)%nat)
    skip
    (updateState translating None ;;
     cond assemblyThrows assemblyFailed requestTranscription).

(** [durationMs >= 1500 || this.vadState === 'end_detected']. *)
Definition flushDue (w : World) : bool :=
  Qle_bool (inject_Z 1500) (durationMs (session w))
  || eqb (vadState (session w)) (js "end_detected").

(** An integer a double holds exactly. *)
Definition exactInt (x : Z) : bool := Z.abs x <=? 2 ^ 53.

(** Every chunk's sample count, and every partial sum of [reduce], is an
    integer a double holds exactly. *)
Fixpoint sumsExact (sum : Z) (buffer : list Chunk) : bool :=
  match buffer with
  | [] => true
  | chunk :: rest =>
      exactInt (samples chunk) && exactInt (sum + samples chunk)
      && sumsExact (sum + samples chunk) rest
  end.

(** The range in which the source's double arithmetic and the exact
    arithmetic of [totalSamples] and [durationMs] give the same answer to
    [durationMs >= 1500]: exact sums, and a rate of at most 2^51 in
    absolute value, for which a quotient below 1.5 is rounded to a double
    below 1.5 whose thousandfold is rounded below 1500. *)
Definition doubleExact (s : Session) : bool :=
  sumsExact 0 (audioBuffer s) && (Z.abs (rateOf s) <=? 2 ^ 51).

Definition processAudioChunk (base64Pcm : jsstring) (samples : Z) : Act :=
  cond (fun w => bool_decide (state (session w) = paused))
    skip
    (modify (with_session (fun s =>
       set_audioBuffer
         (audioBuffer s ++
            [{| base64Pcm := base64Pcm; samples := samples; timestamp := now |}])
         s)) ;;
     cond flushDue processAccumulatedAudio skip).

(** The outer [catch] of [processAccumulatedAudio]. *)
Definition processingFailed (e : ProviderError) : Act :=
  sendError (js "Processing failed: " ++ message e) ;;
  updateState listening None.

(** [Math.max(1000, translatedText.length * 50)]. *)
Definition playbackDuration (translatedText : jsstring) : Z :=
  Z.max 1000 (Z.of_nat (length translatedText) * 50).

(** From "Send final result" to the end of the inner [try]. *)
Definition sendResult (transcribedText translatedText detectedLang : jsstring) : Act :=
  sendFinal transcribedText translatedText detectedLang ;;
  updateState playing None ;;
  emit (setTimeout playback (playbackDuration translatedText)) ;;
  modify (with_playbackTimers (fun ts => ts ++ [playbackDuration translatedText])).

(** [LANGUAGE_MAPPING] is a plain object: a key it does not own is looked
    up on [Object.prototype].  These are the members whose [name] is a
    non-empty string: the functions, named after their key, and
    [constructor], which is [Object]. *)
Definition prototypeName (code : jsstring) : option jsstring :=
  if eqb code (js "constructor") then Some (js "Object")
  else if existsb (eqb code)
            [js "hasOwnProperty"; js "isPrototypeOf"; js "propertyIsEnumerable";
             js "toLocaleString"; js "toString"; js "valueOf";
             js "__defineGetter__"; js "__defineSetter__";
             js "__lookupGetter__"; js "__lookupSetter__"]
       then Some code
  else None.

(** [LANGUAGE_MAPPING[code]?.name || code]. *)
Definition langName (code : jsstring) : jsstring :=
  match mapping code with
  | Some info => if falsy (name info) then code else name info
  | None =>
      match prototypeName code with
      | Some inherited => inherited
      | None => code
      end
  end.

(** The invocation at slot [i] returns: the outer [finally] runs and the
    slot is freed. *)
Definition returns (i : nat) (body : Act) : Act :=
  body ;; clearBuffer ;; modify (with_flights (delete i)).

(** The invocation at slot [i] suspends again, at [f]. *)
Definition awaits (i : nat) (call : Effect) (f : Flight) : Act :=
  emit call ;; modify (with_flights (<[i := f]>)).

(** The rest of [processAccumulatedAudio]: the invocation suspended at slot
    [i] is resumed with the outcome [r] of the call it awaits, and runs to
    its next [await] or to its end.  An outcome that answers no pending
    call changes nothing. *)
Definition resume_flight (i : nat) (r : Settled) : Act := fun w =>
  match flights w !! i, r with
  | Some awaitTranscription, transcription text =>
      match option_map trim text with
      | None | Some [] => returns i (updateState listening None) w
      | Some transcribedText =>
          let detectedLang := detectLanguageFromText transcribedText in
          let targetLang := getTargetLanguage detectedLang (config (session w)) in
          if negb (eqb detectedLang targetLang)
          then awaits i (translateCall transcribedText detectedLang targetLang)
                      (awaitTranslate transcribedText detectedLang targetLang) w
          else returns i (sendResult transcribedText transcribedText detectedLang) w
      end
  | Some awaitTranscription, transcriptionFailed e =>
      returns i (processingFailed e) w
  | Some (awaitTranslate transcribedText detectedLang targetLang), translation text =>
      returns i (sendResult transcribedText text detectedLang) w
  | Some (awaitTranslate transcribedText detectedLang targetLang), translateFailed _ =>
      awaits i (chatCall (langName detectedLang) (langName targetLang) transcribedText
                         (Z.min (Z.of_nat (length transcribedText) * 2) 1000))
               (awaitChat transcribedText detectedLang targetLang) w
  | Some (awaitChat transcribedText detectedLang targetLang), completion content =>
      returns i (sendResult transcribedText (trim content) detectedLang) w
  | Some (awaitChat transcribedText detectedLang targetLang), completionFailed e =>
      returns i (processingFailed e) w
  | _, _ => (w, [])
  end.

Definition handleVAD (event : jsstring) : Act :=
  modify (with_session (set_vadState event)) ;;
  if eqb event (js "begin") then skip
  else if eqb event (js "end") then
    modify (with_session (set_vadState (js "end_detected"))) ;;
    cond (fun w => (0 <? length (audioBuffer (session w)))%nat)
      (emit (setTimeout graceDelay 100) ;; modify (with_graceTimers S))
      skip
  else skip.

Definition pause : Act := updateState paused None.

Definition resume : Act := updateState listening None.

Definition stop : Act := modify (with_session (set_isActive false)).

(** The callback armed by [handleVAD]. *)
Definition graceElapsed : Act :=
  cond (fun w => bool_decide (graceTimers w = O))
    skip
    (modify (with_graceTimers Nat.pred) ;; processAccumulatedAudio).

(** The callback armed after a result was sent. *)
Definition playbackElapsed (i : nat) : Act :=
  cond (fun w => bool_decide (is_Some (playbackTimers w !! i)))
    (modify (with_playbackTimers (delete i)) ;;
     cond (fun w => isActive (session w) && bool_decide (state (session w) = playing))
       (updateState listening None)
       skip)
    skip.

(** ** Events of one session

    Frames of the connection after [start], socket events, timers that
    fire, provider calls that settle, and changes of the runtime.  A timer
    or a settlement that names nothing pending is a stutter. *)
Inductive Event : Type :=
| recv_audio (pcm16 : jsstring) (samples : Z)
| recv_vad (event : jsstring)
| recv_pause
| recv_resume
| recv_stop
| recv_unknown (type : jsstring)
| recv_malformed (parseError : jsstring)
| ws_readyState (r : ReadyState)
| ws_close
| ws_error
| timeout_grace
| timeout_playback (i : nat)
| settled (i : nat) (r : Settled)
| runtime_state (rt : Runtime).

(** The [message], [close] and [error] listeners for a connection whose
    [session] variable is set, and the asynchronous callbacks. *)
Definition handle (e : Event) : Act :=
  match e with
  | recv_audio pcm16 samples => processAudioChunk pcm16 samples
  | recv_vad event => handleVAD event
  | recv_pause => pause
  | recv_resume => resume
  | recv_stop => stop
  | recv_unknown _ => skip
  | recv_malformed parseError =>
      sendError (js "Message processing failed: " ++ parseError)
  | ws_readyState r => modify (with_readyState r)
  | ws_close => stop
  | ws_error => stop
  | timeout_grace => graceElapsed
  | timeout_playback i => playbackElapsed i
  | settled i r => resume_flight i r
  | runtime_state rt => modify (with_runtime rt)
  end.

(** A runtime that does not fail. *)
Definition healthy : Runtime := {| faulty := false; faultMessage := [] |}.

(** The [start] frame: a fresh session on socket state [r].  The runtime
    is [healthy] until a [runtime_state] event says otherwise. *)
Definition start (sessionId : jsstring) (cfg : Config) (r : ReadyState)
  : World * list Effect :=
  updateState listening None
    {| session := InterpreterSession sessionId cfg; readyState := r;
       flights := []; graceTimers := 0; playbackTimers := [];
       runtime := healthy |}.

End Methods.

(** A schedule: each event with the clock value it is handled at. *)
Fixpoint run (w : World) (schedule : list (Z * Event)) : World * list Effect :=
  match schedule with
  | [] => (w, [])
  | (now, e) :: rest =>
      let '(w1, o1) := handle now e w in
      let '(w2, o2) := run w1 rest in
      (w2, o1 ++ o2)
  end.

(** The frames among the effects. *)
Definition sent (out : list Effect) : list Msg :=
  omap (fun e => match e with wsSend m => Some m | _ => None end) out.

Definition isFinal (m : Msg) : bool :=
  match m with final _ _ _ => true | _ => false end.

Definition isError (m : Msg) : bool :=
  match m with error _ => true | _ => false end.

(** Calls to a translation provider, primary or fallback. *)
Definition isTranslationCall (e : Effect) : bool :=
  match e with translateCall _ _ _ | chatCall _ _ _ _ => true | _ => false end.

Definition isFallbackCall (e : Effect) : bool :=
  match e with chatCall _ _ _ _ => true | _ => false end.

(** ** Session registry

    [sessions] is the module-level [Map] from session id to session
    object.  Objects live in [heap]; the map and each connection's
    [session] variable hold positions in it, so that a session stopped by
    the sweep is stopped for its connection too. *)

Record Process : Type := {
  heap : list World;
  sessions : gmap jsstring nat
}.

(** Run a method of the object at [oid]. *)
Definition on_object (oid : nat) (a : Act) (p : Process) : Process * list Effect :=
  match heap p !! oid with
  | Some w =>
      let '(w', out) := a w in
      ({| heap := <[oid := w']> (heap p); sessions := sessions p |}, out)
  | None => (p, [])
  end.

(** [case 'start']: the new object replaces the connection's [session]
    variable and is registered under its id. *)
Definition on_start (now : Z) (sessionId : jsstring) (cfg : Config) (r : ReadyState)
    (p : Process) : Process * option nat * list Effect :=
  let '(w, out) := start now sessionId cfg r in
  ({| heap := heap p ++ [w];
      sessions := <[sessionId := length (heap p)]> (sessions p) |},
   Some (length (heap p)), out).

(** [sessions.delete(session.sessionId)]. *)
Definition unregister (oid : nat) (p : Process) : Process :=
  match heap p !! oid with
  | Some w =>
      {| heap := heap p; sessions := delete (sessionId (session w)) (sessions p) |}
  | None => p
  end.

(** Every other frame, socket event or callback, for a connection whose
    [session] variable is [var]. *)
Definition on_event (now : Z) (var : option nat) (e : Event) (p : Process)
  : Process * list Effect :=
  match var with
  | None => (p, [])
  | Some oid =>
      let '(p1, out) := on_object oid (handle now e) p in
      match e with
      | recv_stop | ws_close | ws_error => (unregister oid p1, out)
      | _ => (p1, out)
      end
  end.

(** [30 * 60 * 1000]. *)
Definition TIMEOUT : Z := 30 * 60 * 1000.

Definition expired (now : Z) (w : World) : bool :=
  TIMEOUT <? now - lastActivity (session w).

(** One iteration of the cleanup loop. *)
Definition sweep_entry (now : Z) (sessionId : jsstring) (oid : nat) (p : Process)
  : Process :=
  match heap p !! oid with
  | Some w =>
      if expired now w
      then {| heap := <[oid := fst (stop w)]> (heap p);
              sessions := delete sessionId (sessions p) |}
      else p
  | None => p
  end.

(** The callback of the five-minute interval. *)
Definition sweep (now : Z) (p : Process) : Process :=
  map_fold (sweep_entry now) p (sessions p).

(** ** The transitions of section 4.1 of the specification

    Used only to compare the specification's edge list with the source;
    [stopped] is a state of the specification that the source never
    assigns. *)

Inductive SpecState : Type :=
| s_idle | s_listening | s_translating | s_playing | s_paused | s_stopped.

Definition spec_state (s : State) : SpecState :=
  match s with
  | idle => s_idle
  | listening => s_listening
  | translating => s_translating
  | playing => s_playing
  | paused => s_paused
  end.

Definition spec_edge (a b : SpecState) : bool :=
  match a, b with
  | s_idle, s_listening => true
  | s_listening, s_translating => true
  | s_translating, s_playing => true
  | s_playing, s_listening => true
  | (s_listening | s_translating | s_playing), s_paused => true
  | s_paused, s_listening => true
  | _, s_stopped => true
  | _, _ => false
  end.

(** The state changes the source makes, by event: each is an
    [updateState] call, and only two of them look at the state they
    leave. *)
Definition code_edge (e : Event) (a b : State) : bool :=
  match e with
  | recv_audio _ _ =>
      negb (bool_decide (a = paused))
      && (bool_decide (b = translating) || bool_decide (b = listening))
  | timeout_grace => bool_decide (b = translating) || bool_decide (b = listening)
  | settled _ (transcription _) => bool_decide (b = listening) || bool_decide (b = playing)
  | settled _ (translation _) | settled _ (completion _) => bool_decide (b = playing)
  | settled _ (transcriptionFailed _) | settled _ (completionFailed _) =>
      bool_decide (b = listening)
  | timeout_playback _ => bool_decide (a = playing) && bool_decide (b = listening)
  | recv_pause => bool_decide (b = paused)
  | recv_resume => bool_decide (b = listening)
  | _ => false
  end.

(** ** Properties of transitions *)

(** A transition from an inactive session writes no frame and leaves the
    session inactive. *)
Definition silent (w : World) (r : World * list Effect) : Prop :=
  isActive (session w) = false ->
  isActive (session (fst r)) = false /\ sent (snd r) = [].

(** A transition stamps [lastActivity] with [now] exactly when it writes a
    frame. *)
Definition stamped (now : Z) (w : World) (r : World * list Effect) : Prop :=
  lastActivity (session (fst r)) =
  match sent (snd r) with
  | [] => lastActivity (session w)
  | _ :: _ => now
  end.

(** Field updates that neither touch [lastActivity] nor reactivate a
    session: every assignment of the class outside [send]. *)
Definition tame (f : World -> World) : Prop :=
  forall w, lastActivity (session (f w)) = lastActivity (session w)
            /\ config (session (f w)) = config (session w)
            /\ (isActive (session w) = false -> isActive (session (f w)) = false).

(** A relation between the world before a transition and its outcome
    holds of an action. *)
Definition holds (R : World -> World * list Effect -> Prop) (a : Act) : Prop :=
  forall w, R w (a w).

(** A transition keeps the configuration. *)
Definition configured (w : World) (r : World * list Effect) : Prop :=
  config (session (fst r)) = config (session w).

(** Stop or disconnect. *)
Definition deactivates (e : Event) : bool :=
  match e with recv_stop | ws_close | ws_error => true | _ => false end.

(** ** A running example

    Scenario B of the specification: English to Spanish, fixed pairing,
    16 kHz, on an open socket; session created at clock 0. *)

Definition demo_config : Config :=
  {| from := js "en"; to := js "es"; mode := js "fixed"; sampleRate := Some 16000 |}.

Definition demo_start : World := fst (start 0 (js "s1") demo_config OPEN).

(** 1.5 s of audio in one chunk: the first flush is dispatched. *)
Definition demo_flushing : World :=
  fst (run demo_start [(5, recv_audio (js "AAAA") 24000)]).

(** The chunk that [processAudioChunk] pushes. *)
Definition pushed (now : Z) (pcm16 : jsstring) (n : Z) (w : World) : World :=
  with_session (fun s =>
    set_audioBuffer
      (audioBuffer s ++ [{| base64Pcm := pcm16; samples := n; timestamp := now |}]) s) w.

(** The inbound frames of a running session: audio, VAD hints, pause and
    resume. *)
Definition inbound (e : Event) : bool :=
  match e with
  | recv_audio _ _ | recv_vad _ | recv_pause | recv_resume => true
  | _ => false
  end.

Definition stampOf (w : World) : Z := lastActivity (session w).

(** What the sweep has done after visiting the entries [m] of the map:
    objects keep their stamps, and exactly the visited entries whose
    object had expired are gone. *)
Definition swept (now : Z) (p r : Process) (m : gmap jsstring nat) : Prop :=
  (forall oid, option_map stampOf (heap r !! oid) = option_map stampOf (heap p !! oid))
  /\ (forall k, sessions r !! k =
        match m !! k with
        | Some oid =>
            match heap p !! oid with
            | Some w => if expired now w then None else sessions p !! k
            | None => sessions p !! k
            end
        | None => sessions p !! k
        end).

(** A process with one registered session, created at clock 0. *)
Definition demo_process : Process :=
  fst (fst (on_start 0 (js "s1") demo_config OPEN {| heap := []; sessions := ∅ |})).

(** [!transcription.text?.trim()]: no text, or nothing but white space. *)
Definition blank (text : option jsstring) : bool :=
  match text with
  | Some t => falsy (trim t)
  | None => true
  end.

(** The transcript comes back: the primary translation is called. *)
Definition demo_translating : World :=
  fst (handle 7 (settled 0 (transcription (Some (js " Hello ")))) demo_flushing).

(** The primary translation is rejected for quota: the fallback is called. *)
Definition demo_fallback : World :=
  fst (handle 8 (settled 0 (translateFailed
                   {| kind := quotaExceeded; message := js "quota exceeded" |}))
         demo_translating).

(** The whole of scenario B: the result was sent and playback is assumed. *)
Definition demo_playing : World :=
  fst (handle 8 (settled 0 (translation (js "Hola"))) demo_translating).

(** A session whose [start] frame carried a negative sample rate: the WAV
    header cannot hold it. *)
Definition demo_bad_rate : World :=
  fst (start 0 (js "s3")
         {| from := js "en"; to := js "es"; mode := js "fixed";
            sampleRate := Some (-16000) |} OPEN).


(** ** Shapes of flights, calls and frames *)

(** A suspended translation has a text to translate and two different
    languages. *)
Definition flightWellFormed (f : Flight) : Prop :=
  match f with
  | awaitTranscription => True
  | awaitTranslate t d g | awaitChat t d g => t <> [] /\ d <> g
  end.

Definition callWellFormed (e : Effect) : Prop :=
  match e with
  | translateCall t d g => t <> [] /\ d <> g
  | chatCall _ _ t max_tokens => t <> [] /\ 2 <= max_tokens <= 1000
  | _ => True
  end.

(** The frames one transition can write. *)
Definition frameShape (l : list Msg) : Prop :=
  l = []
  \/ (exists s, l = [status s None])
  \/ (exists a m d, l = [final a m d; status playing None])
  \/ (exists m, l = [error m; status listening None])
  \/ (exists m, l = [error m])
  \/ (exists m, l = [status translating None; error m; status listening None]).

(** The provider answer [r] is the answer to the call the flight [f]
    awaits. *)
Definition answers (f : Flight) (r : Settled) : bool :=
  match f, r with
  | awaitTranscription, (transcription _ | transcriptionFailed _) => true
  | awaitTranslate _ _ _, (translation _ | translateFailed _) => true
  | awaitChat _ _ _, (completion _ | completionFailed _) => true
  | _, _ => false
  end.

(** Calls to any of the three providers. *)
Definition isProviderCall (e : Effect) : bool :=
  match e with
  | transcribe _ _ _ | translateCall _ _ _ | chatCall _ _ _ _ => true
  | _ => false
  end.

(** How an invocation of [processAccumulatedAudio] can return: after a
    blank transcript, with a result, or through the outer [catch]. *)
Inductive Ending (now : Z) : Act -> Prop :=
| end_blank : Ending now (updateState now listening None)
| end_result t tr d : Ending now (sendResult now t tr d)
| end_failed e : Ending now (processingFailed now e).

(** What a provider answer does to the invocation suspended at slot [i] on
    the flight [f]: nothing when it answers another kind of call, the end
    of the invocation, or one step down the chain of providers. *)
Inductive Outcome (now : Z) (i : nat) (w : World)
  : Flight -> World * list Effect -> Prop :=
| out_stutter f : Outcome now i w f (w, [])
| out_ends f body : Ending now body -> Outcome now i w f (returns i body w)
| out_translate t d g :
    t <> [] -> d <> g ->
    Outcome now i w awaitTranscription
      (awaits i (translateCall t d g) (awaitTranslate t d g) w)
| out_fallback t d g :
    Outcome now i w (awaitTranslate t d g)
      (awaits i (chatCall (langName d) (langName g) t
                          (Z.min (Z.of_nat (length t) * 2) 1000))
              (awaitChat t d g) w).

(** Schedules made of audio frames only. *)
Definition audioOnly (schedule : list (Z * Event)) : bool :=
  forallb (fun ne => match snd ne with recv_audio _ _ => true | _ => false end)
          schedule.

(** What the sweep has done to the objects after visiting the entries [m]:
    an object is as it was, or it belongs to a visited entry, had expired
    and has been stopped; and every visited entry whose object had expired
    finds it stopped. *)
Definition sweptHeap (now : Z) (p r : Process) (m : gmap jsstring nat) : Prop :=
  (forall oid,
     heap r !! oid = heap p !! oid
     \/ exists w k, heap p !! oid = Some w /\ m !! k = Some oid
                    /\ expired now w = true
                    /\ heap r !! oid = Some (fst (stop w)))
  /\ (forall k oid w,
        m !! k = Some oid -> heap p !! oid = Some w -> expired now w = true ->
        heap r !! oid = Some (fst (stop w))).

(** Two connections start a session under the same id, one after the
    other. *)
Definition demo_twice : Process :=
  fst (fst (on_start 10 (js "s1") demo_config OPEN demo_process)).

(** ** Text lemmas *)

Lemma trimStart_keeps (c : N) (s : jsstring) :
  In c s -> isWhiteSpace c = false -> In c (trimStart s).
Proof.
  intros Hin Hc. induction s as [|d s IH]; simpl in *; [contradiction|].
  destruct (isWhiteSpace d) eqn:Hd.
  - destruct Hin as [->|Hin]; [congruence | auto].
  - exact Hin.
Qed.

Lemma trim_keeps (c : N) (s : jsstring) :
  In c s -> isWhiteSpace c = false -> In c (trim s).
Proof.
  intros Hin Hc. unfold trim, trimEnd.
  apply in_rev. rewrite rev_involutive.
  apply trimStart_keeps; [|exact Hc].
  apply in_rev. rewrite rev_involutive.
  now apply trimStart_keeps.
Qed.

Lemma arabic_not_whitespace (c : N) :
  (0x0600 <= c <= 0x06FF)%N -> isWhiteSpace c = false.
Proof.
  intros [Hlo Hhi]. unfold isWhiteSpace.
  repeat match goal with
  | |- context [(?a <=? ?b)%N] => destruct (N.leb_spec a b)
  | |- context [(?a =? ?b)%N] => destruct (N.eqb_spec a b)
  end; simpl; try reflexivity; lia.
Qed.

Lemma testRange_true (lo hi c : N) (text : jsstring) :
  In c text -> (lo <= c <= hi)%N -> testRange lo hi text = true.
Proof.
  intros Hin [Hlo Hhi]. unfold testRange. apply existsb_exists.
  exists c. split; [exact Hin|].
  apply andb_true_iff. split; apply N.leb_le; assumption.
Qed.

(** C10. [detectLanguageFromText] answers one of ar, zh, ja, ko, ru, en and
    never ur: the Urdu pattern is the Arabic one and is tested second, so a
    text with a code unit in U+0600..U+06FF is ar; an empty or
    whitespace-only text is en. *)
Theorem detectLanguageFromText_codes :
  (forall text, In (detectLanguageFromText text)
                   [js "ar"; js "zh"; js "ja"; js "ko"; js "ru"; js "en"])
  /\ (forall text, detectLanguageFromText text <> js "ur")
  /\ (forall text c, In c text -> (0x0600 <= c <= 0x06FF)%N ->
        detectLanguageFromText text = js "ar")
  /\ (forall text, trim text = [] -> detectLanguageFromText text = js "en").
Proof.
  assert (Hurdu : forall text, arabicPattern text = false -> urduPattern text = false)
    by (intros text H; exact H).
  repeat split.
  - intros text. unfold detectLanguageFromText.
    destruct (falsy text || _); [simpl; tauto|].
    destruct (arabicPattern text) eqn:Har; [simpl; tauto|].
    rewrite (Hurdu _ Har).
    repeat match goal with
    | |- context [if ?b then _ else _] => destruct b
    end; simpl; tauto.
  - intros text. unfold detectLanguageFromText.
    destruct (falsy text || _); [discriminate|].
    destruct (arabicPattern text) eqn:Har; [discriminate|].
    rewrite (Hurdu _ Har).
    repeat match goal with
    | |- context [if ?b then _ else _] => destruct b
    end; discriminate.
  - intros text c Hin Hc. unfold detectLanguageFromText.
    assert (Hne : falsy text || (length (trim text) =? 0)%nat = false).
    { apply orb_false_iff. split.
      - destruct text; [contradiction | reflexivity].
      - pose proof (trim_keeps c text Hin (arabic_not_whitespace c Hc)) as Hk.
        destruct (trim text); [contradiction | reflexivity]. }
    rewrite Hne. unfold arabicPattern.
    now rewrite (testRange_true _ _ c text Hin Hc).
  - intros text Ht. unfold detectLanguageFromText.
    rewrite Ht. simpl. now rewrite orb_true_r.
Qed.

Lemma detectLanguageFromText_codes_witness :
  detectLanguageFromText [0x0633; 0x0644; 0x0627; 0x0645]%N = js "ar"
  /\ detectLanguageFromText (js "  ") = js "en".
Proof.
  destruct detectLanguageFromText_codes as (_ & _ & Har & Hen).
  split.
  - apply (Har [0x0633; 0x0644; 0x0627; 0x0645]%N 0x0633%N);
      [simpl; tauto | lia].
  - apply (Hen (js "  ")). reflexivity.
Defined.


(** ** Scenarios of the specification, evaluated *)

(** Scenario A: two seconds of silence, an empty transcript; the session
    is back in [listening] and no [final] was written. *)
Example scenario_A :
  let r := run demo_start
             [(5, recv_audio (js "AAAA") 32000);
              (900, settled 0 (transcription (Some (js ""))))] in
  sent (snd r) = [status translating None; status listening None]
  /\ state (session (fst r)) = listening
  /\ audioBuffer (session (fst r)) = [].
Proof. repeat split. Qed.

(** Scenario B: "Hello" is detected as en, the target es differs, the
    primary translation answers. *)
Example scenario_B :
  let r := run demo_start
             [(5, recv_audio (js "AAAA") 24000);
              (900, settled 0 (transcription (Some (js "Hello"))));
              (1100, settled 0 (translation (js "Hola")))] in
  snd r =
    [ wsSend (status translating None);
      transcribe [{| base64Pcm := js "AAAA"; samples := 24000; timestamp := 5 |}]
                 16000 (Some (js "en"));
      translateCall (js "Hello") (js "en") (js "es");
      wsSend (final (js "Hello") (js "Hola") (js "en"));
      wsSend (status playing None);
      setTimeout playback 1000 ]
  /\ state (session (fst r)) = playing
  /\ lastActivity (session (fst r)) = 1100.
Proof. repeat split. Qed.

(** Scenario C: the primary translation is rejected for quota and the
    fallback answers. *)
Example scenario_C :
  sent (snd (run demo_translating
     [(8, settled 0 (translateFailed
                       {| kind := quotaExceeded; message := js "quota exceeded" |}));
      (9, settled 0 (completion (js "Hola")))])) =
  [final (js "Hello") (js "Hola") (js "en"); status playing None].
Proof. reflexivity. Qed.

(** Text in Arabic script with Latin around it, and text in kana. *)
Example detect_mixed :
  detectLanguageFromText (js "ok " ++ [0x0633; 0x0644]%N) = js "ar"
  /\ detectLanguageFromText [0x3053; 0x3093]%N = js "ja"
  /\ detectLanguageFromText (js "Hello") = js "en".
Proof. repeat split. Qed.

(** ** Sequencing *)

Lemma seq_eq (a b : Act) (w : World) :
  (a ;; b) w = (fst (b (fst (a w))), snd (a w) ++ snd (b (fst (a w)))).
Proof.
  unfold seq. destruct (a w) as [w1 o1]. simpl.
  destruct (b w1) as [w2 o2]. reflexivity.
Qed.

Lemma sent_app (o1 o2 : list Effect) : sent (o1 ++ o2) = sent o1 ++ sent o2.
Proof. apply omap_app. Qed.

Lemma send_eq (now : Z) (m : Msg) (w : World) :
  send now m w =
  if deliverable w then (with_session (set_lastActivity now) w, [wsSend m])
  else (w, []).
Proof. reflexivity. Qed.

Lemma run_cons (w : World) (now : Z) (e : Event) (rest : list (Z * Event)) :
  run w ((now, e) :: rest) =
  (fst (run (fst (handle now e w)) rest),
   snd (handle now e w) ++ snd (run (fst (handle now e w)) rest)).
Proof.
  simpl. destruct (handle now e w) as [w1 o1]. simpl.
  destruct (run w1 rest) as [w2 o2]. reflexivity.
Qed.

Ltac tame := intros ?; split; [reflexivity | split; [reflexivity | simpl; auto]].

(** ** Induction over the handlers

    A relation between the world before a transition and its outcome
    holds of every transition as soon as it holds of the five things
    handlers are made of: doing nothing, sequencing, [send], a call that
    is not a frame, and a tame field update. *)

Section HandlerInduction.

Variable now : Z.
Variable R : World -> World * list Effect -> Prop.

Hypothesis R_skip : forall w, R w (w, []).
Hypothesis R_seq : forall w w1 o1 w2 o2,
  R w (w1, o1) -> R w1 (w2, o2) -> R w (w2, o1 ++ o2).
Hypothesis R_send : forall w m, R w (send now m w).
Hypothesis R_call : forall w e, sent [e] = [] -> R w (w, [e]).
Hypothesis R_modify : forall w f, tame f -> R w (f w, []).

#[local] Abbreviation holds := (holds R).

Lemma holds_seq (a b : Act) : holds a -> holds b -> holds (a ;; b).
Proof.
  intros Ha Hb w. rewrite seq_eq.
  apply R_seq with (w1 := fst (a w)).
  - rewrite <- surjective_pairing. apply Ha.
  - rewrite <- surjective_pairing. apply Hb.
Qed.

Lemma holds_modify (f : World -> World) : tame f -> holds (modify f).
Proof. intros Hf w. now apply R_modify. Qed.

Lemma holds_emit (e : Effect) : sent [e] = [] -> holds (emit e).
Proof. intros He w. now apply R_call. Qed.

Lemma holds_call (e : World -> Effect) :
  (forall w, sent [e w] = []) -> holds (call e).
Proof. intros He w. now apply R_call. Qed.

Lemma holds_skip : holds skip.
Proof. exact R_skip. Qed.

Lemma holds_cond (c : World -> bool) (a b : Act) :
  holds a -> holds b -> holds (cond c a b).
Proof. intros Ha Hb w. unfold cond. destruct (c w); [apply Ha | apply Hb]. Qed.

Lemma holds_updateState (s : State) (d : option jsstring) :
  holds (updateState now s d).
Proof.
  apply holds_seq; [apply holds_modify; tame | intros w; apply R_send].
Qed.

Ltac holds :=
  repeat first
    [ apply holds_skip
    | apply holds_updateState
    | intros ?; apply R_send
    | apply holds_emit; reflexivity
    | apply holds_call; reflexivity
    | apply holds_modify; tame
    | apply holds_cond
    | apply holds_seq ].

Lemma holds_returns (i : nat) (body : Act) : holds body -> holds (returns i body).
Proof. intros Hb. unfold returns. apply holds_seq; [exact Hb | holds]. Qed.

Lemma holds_awaits (i : nat) (call : Effect) (f : Flight) :
  sent [call] = [] -> holds (awaits i call f).
Proof. intros Hc. apply holds_seq; [now apply holds_emit | holds]. Qed.

Lemma holds_sendResult (t tr d : jsstring) : holds (sendResult now t tr d).
Proof. unfold sendResult, sendFinal. holds. Qed.

Lemma holds_processingFailed (e : ProviderError) : holds (processingFailed now e).
Proof. unfold processingFailed, sendError. holds. Qed.

Lemma holds_processAccumulatedAudio : holds (processAccumulatedAudio now).
Proof. unfold processAccumulatedAudio. holds. Qed.

Lemma holds_resume_flight (i : nat) (r : Settled) : holds (resume_flight now i r).
Proof.
  intros w. unfold resume_flight.
  destruct (flights w !! i) as [[| t d g | t d g]|]; destruct r as [text|e|tr|e|c|e];
    try apply R_skip;
    try (apply holds_returns;
         first [apply holds_sendResult | apply holds_processingFailed]);
    try (now apply holds_awaits).
  destruct (option_map trim text) as [[|c0 t0]|].
  - apply holds_returns, holds_updateState.
  - destruct (negb _).
    + now apply holds_awaits.
    + apply holds_returns, holds_sendResult.
  - apply holds_returns, holds_updateState.
Qed.

Theorem handle_ind (e : Event) : holds (handle now e).
Proof.
  pose proof holds_processAccumulatedAudio as Hflush.
  destruct e as [pcm n|ev| | | |ty|err|r| | | |i|i r|rt]; simpl.
  - unfold processAudioChunk.
    apply holds_cond; [holds|]. apply holds_seq; [holds|].
    apply holds_cond; [exact Hflush | holds].
  - unfold handleVAD. apply holds_seq; [holds|].
    destruct (eqb ev (js "begin")); [holds|].
    destruct (eqb ev (js "end")); holds.
  - apply holds_updateState.
  - apply holds_updateState.
  - apply holds_modify. tame.
  - apply holds_skip.
  - intros w. apply R_send.
  - apply holds_modify. tame.
  - apply holds_modify. tame.
  - apply holds_modify. tame.
  - unfold graceElapsed.
    apply holds_cond; [holds|]. apply holds_seq; [holds | exact Hflush].
  - unfold playbackElapsed. holds.
  - apply holds_resume_flight.
  - apply holds_modify. tame.
Qed.

End HandlerInduction.

(** ** Inactive sessions are silent *)

Lemma handle_silent (now : Z) (e : Event) (w : World) : silent w (handle now e w).
Proof.
  apply (handle_ind now silent); clear.
  - intros w Hw. split; [exact Hw | reflexivity].
  - intros w w1 o1 w2 o2 H1 H2 Hw. unfold silent in *. cbn [fst snd] in *.
    destruct (H1 Hw) as [Ha Hb]. destruct (H2 Ha) as [Hc Hd].
    split; [exact Hc|]. rewrite sent_app, Hb, Hd. reflexivity.
  - intros w m Hw. rewrite send_eq. unfold deliverable.
    rewrite Hw, andb_false_r. split; [exact Hw | reflexivity].
  - intros w e He Hw. split; [exact Hw | exact He].
  - intros w f Hf Hw. split; [now apply Hf | reflexivity].
Qed.

Lemma inactive_run_silent (schedule : list (Z * Event)) (w : World) :
  silent w (run w schedule).
Proof.
  revert w. induction schedule as [|[now e] rest IH]; intros w Hw.
  - split; [exact Hw | reflexivity].
  - rewrite run_cons. simpl.
    destruct (handle_silent now e w Hw) as [H1 H2].
    destruct (IH _ H1) as [H3 H4].
    split; [exact H3|]. rewrite sent_app, H2, H4. reflexivity.
Qed.

Lemma deactivates_inactive (now : Z) (e : Event) (w : World) :
  deactivates e = true ->
  isActive (session (fst (handle now e w))) = false /\ snd (handle now e w) = [].
Proof. destruct e; try discriminate; intros _; split; reflexivity. Qed.

(** C9. Once [stop], a close or a socket error has marked the session
    inactive, no frame of any kind is written for it again, whatever
    follows: further frames, timers, or provider calls of an in-flight
    pipeline that settle afterwards. *)
Theorem no_frame_after_stop (w : World) (now : Z) (e : Event)
    (schedule : list (Z * Event)) :
  deactivates e = true ->
  sent (snd (run w ((now, e) :: schedule))) = [].
Proof.
  intros He. rewrite run_cons. simpl.
  destruct (deactivates_inactive now e w He) as [H1 H2].
  rewrite H2. simpl.
  exact (proj2 (inactive_run_silent schedule _ H1)).
Qed.

Lemma no_frame_after_stop_witness :
  deactivates recv_stop = true
  /\ sent (snd (run demo_flushing
       [(6, recv_stop);
        (7, settled 0 (transcription (Some (js "Hello"))));
        (8, settled 0 (translation (js "Hola")));
        (9, timeout_playback 0)])) = [].
Proof.
  split; [reflexivity|].
  apply (no_frame_after_stop demo_flushing 6 recv_stop). reflexivity.
Defined.

(** ** Activity stamps *)

Lemma handle_stamped (now : Z) (e : Event) (w : World) :
  stamped now w (handle now e w).
Proof.
  apply (handle_ind now (stamped now)); clear; unfold stamped.
  - reflexivity.
  - intros w w1 o1 w2 o2 H1 H2. cbn [fst snd] in *.
    rewrite sent_app, H2, H1.
    destruct (sent o1), (sent o2); reflexivity.
  - intros w m. rewrite send_eq. destruct (deliverable w); reflexivity.
  - intros w e He. cbn [fst snd]. rewrite He. reflexivity.
  - intros w f Hf. cbn [fst snd]. apply Hf.
Qed.

Lemma handle_configured (now : Z) (e : Event) (w : World) :
  configured w (handle now e w).
Proof.
  apply (handle_ind now configured); clear; unfold configured.
  - reflexivity.
  - intros w w1 o1 w2 o2 H1 H2. cbn [fst snd] in *. congruence.
  - intros w m. rewrite send_eq. destruct (deliverable w); reflexivity.
  - reflexivity.
  - intros w f Hf. cbn [fst snd]. apply Hf.
Qed.

(** ** The idle sweep *)

Lemma expired_stamp (now : Z) (w w' : World) :
  stampOf w = stampOf w' -> expired now w = expired now w'.
Proof. unfold expired, stampOf. intros ->. reflexivity. Qed.

Lemma sweep_entry_swept (now : Z) (p r : Process) (m : gmap jsstring nat)
    (k : jsstring) (oid : nat) :
  m !! k = None -> swept now p r m ->
  swept now p (sweep_entry now k oid r) (<[k := oid]> m).
Proof.
  intros Hk [Hheap Hmap]. unfold sweep_entry.
  pose proof (Hheap oid) as Hoid.
  destruct (heap r !! oid) as [w|] eqn:Hr; destruct (heap p !! oid) as [w0|] eqn:Hp;
    simpl in Hoid; try discriminate.
  - injection Hoid as Hst. rewrite (expired_stamp now w w0 Hst).
    destruct (expired now w0) eqn:Hex.
    + split; simpl.
      * intros j. destruct (decide (j = oid)) as [->|Hne].
        -- rewrite list_lookup_insert_eq by (eapply lookup_lt_Some; eassumption).
           rewrite Hp. simpl. f_equal. exact Hst.
        -- rewrite list_lookup_insert_ne by congruence. apply Hheap.
      * intros j. destruct (decide (j = k)) as [->|Hne].
        -- rewrite lookup_delete_eq, lookup_insert_eq, Hp, Hex. reflexivity.
        -- rewrite lookup_delete_ne, lookup_insert_ne by congruence. apply Hmap.
    + split; [exact Hheap|].
      intros j. destruct (decide (j = k)) as [->|Hne].
      * rewrite lookup_insert_eq, Hp, Hex.
        specialize (Hmap k). rewrite Hk in Hmap. exact Hmap.
      * rewrite lookup_insert_ne by congruence. apply Hmap.
  - split; [exact Hheap|].
    intros j. destruct (decide (j = k)) as [->|Hne].
    + rewrite lookup_insert_eq, Hp.
      specialize (Hmap k). rewrite Hk in Hmap. exact Hmap.
    + rewrite lookup_insert_ne by congruence. apply Hmap.
Qed.

Lemma sweep_swept (now : Z) (p : Process) : swept now p (sweep now p) (sessions p).
Proof.
  unfold sweep.
  apply (map_fold_weak_ind (swept now p) (sweep_entry now) p).
  - split; [reflexivity|]. intros k. rewrite lookup_empty. reflexivity.
  - intros k oid m r Hk IH. now apply sweep_entry_swept.
Qed.

Lemma sweep_lookup (now : Z) (p : Process) (k : jsstring) :
  sessions (sweep now p) !! k =
  match sessions p !! k with
  | Some oid =>
      match heap p !! oid with
      | Some w => if expired now w then None else Some oid
      | None => Some oid
      end
  | None => None
  end.
Proof.
  rewrite (proj2 (sweep_swept now p) k).
  destruct (sessions p !! k) as [oid|]; [|reflexivity].
  destruct (heap p !! oid) as [w|]; [|reflexivity].
  destruct (expired now w); reflexivity.
Qed.

Lemma start_stamp (now : Z) (sid : jsstring) (cfg : Config) (r : ReadyState) :
  lastActivity (session (fst (start now sid cfg r))) = now.
Proof.
  unfold start, updateState. rewrite seq_eq, send_eq. cbn [fst snd modify].
  destruct (deliverable _); reflexivity.
Qed.

(** C8, as the code has it. [lastActivity] is set when the session is
    created and whenever a frame is written to the socket, and by nothing
    else: a transition that writes no frame (an audio chunk that triggers
    no flush, a VAD hint) leaves it as it was, and pause and resume move
    it only through the status frame they send.  The sweep removes an
    entry only if its session's [lastActivity] is more than [TIMEOUT]
    (30 minutes) before the sweep's clock, and changes no entry it keeps. *)
Theorem lastActivity_frames_and_sweep :
  (forall now sid cfg r, lastActivity (session (fst (start now sid cfg r))) = now)
  /\ (forall now e w, stamped now w (handle now e w))
  /\ (forall now p k oid,
        sessions p !! k = Some oid -> sessions (sweep now p) !! k = None ->
        exists w, heap p !! oid = Some w /\ TIMEOUT < now - lastActivity (session w))
  /\ (forall now p k oid,
        sessions (sweep now p) !! k = Some oid -> sessions p !! k = Some oid).
Proof.
  split; [exact start_stamp|].
  split; [exact handle_stamped|].
  split.
  - intros now p k oid Hk Hgone. rewrite sweep_lookup, Hk in Hgone.
    destruct (heap p !! oid) as [w|]; [|discriminate].
    destruct (expired now w) eqn:Hex; [|discriminate].
    exists w. split; [reflexivity|].
    unfold expired in Hex. now apply Z.ltb_lt in Hex.
  - intros now p k oid Hkept. rewrite sweep_lookup in Hkept.
    destruct (sessions p !! k) as [oid'|]; [|discriminate].
    destruct (heap p !! oid') as [w|]; [|exact Hkept].
    destruct (expired now w); [discriminate | exact Hkept].
Qed.

Lemma lastActivity_frames_and_sweep_witness :
  sessions demo_process !! js "s1" = Some 0%nat
  /\ sessions (sweep 2000000 demo_process) !! js "s1" = None
  /\ (exists w, heap demo_process !! 0%nat = Some w
                /\ TIMEOUT < 2000000 - lastActivity (session w))
  /\ sessions (sweep 1000 demo_process) !! js "s1" = Some 0%nat.
Proof.
  destruct lastActivity_frames_and_sweep as (_ & _ & Hgone & Hkept).
  assert (H3 : sessions (sweep 1000 demo_process) !! js "s1" = Some 0%nat)
    by (vm_compute; reflexivity).
  pose proof (Hkept 1000 demo_process (js "s1") 0%nat H3) as H1.
  assert (H2 : sessions (sweep 2000000 demo_process) !! js "s1" = None)
    by (vm_compute; reflexivity).
  split; [exact H1|]. split; [exact H2|]. split; [|exact H3].
  exact (Hgone 2000000 demo_process (js "s1") 0%nat H1 H2).
Defined.

(** C8 as stated does not hold: an audio frame that triggers no flush is
    handled at clock 5 and the session still carries the stamp 0 of its
    creation. *)
Lemma audio_frame_leaves_lastActivity :
  inbound (recv_audio (js "AAAA") 160) = true
  /\ lastActivity (session demo_start) = 0
  /\ lastActivity (session (fst (handle 5 (recv_audio (js "AAAA") 160) demo_start))) <> 5.
Proof. repeat split. discriminate. Qed.

(** ** The pipeline, one settlement at a time *)

Lemma updateState_eq (now : Z) (s : State) (d : option jsstring) (w : World) :
  updateState now s d w =
  if deliverable w
  then (with_session (set_lastActivity now) (with_session (set_state s) w),
        [wsSend (status s (dirField d))])
  else (with_session (set_state s) w, []).
Proof.
  unfold updateState. rewrite seq_eq, send_eq. cbn [modify fst snd].
  change (deliverable (with_session (set_state s) w)) with (deliverable w).
  destruct (deliverable w); reflexivity.
Qed.

Lemma returns_eq (i : nat) (body : Act) (w : World) :
  returns i body w =
  (with_flights (delete i)
     (with_session (fun s => set_vadState (js "silence") (set_audioBuffer [] s))
        (fst (body w))),
   snd (body w)).
Proof.
  unfold returns. rewrite !seq_eq. cbn [clearBuffer modify fst snd].
  now rewrite !app_nil_r.
Qed.

Lemma sendResult_eq (now : Z) (t tr d : jsstring) (w : World) :
  sent (snd (sendResult now t tr d w)) =
    (if deliverable w then [final t tr d; status playing None] else [])
  /\ state (session (fst (sendResult now t tr d w))) = playing
  /\ isActive (session (fst (sendResult now t tr d w))) = isActive (session w).
Proof.
  unfold sendResult, sendFinal. rewrite !seq_eq, !updateState_eq, !send_eq.
  unfold deliverable. cbn.
  destruct (bool_decide (readyState w = OPEN) && isActive (session w)) eqn:Hd; cbn;
    rewrite ?Hd; cbn; auto.
Qed.

Lemma processingFailed_eq (now : Z) (e : ProviderError) (w : World) :
  sent (snd (processingFailed now e w)) =
    (if deliverable w
     then [error (js "Processing failed: " ++ message e); status listening None]
     else [])
  /\ state (session (fst (processingFailed now e w))) = listening
  /\ isActive (session (fst (processingFailed now e w))) = isActive (session w).
Proof.
  unfold processingFailed, sendError. rewrite !seq_eq, !updateState_eq, !send_eq.
  unfold deliverable. cbn.
  destruct (bool_decide (readyState w = OPEN) && isActive (session w)) eqn:Hd; cbn;
    rewrite ?Hd; cbn; auto.
Qed.

(** C5. When the transcript of a flushed segment is missing, empty or
    white space only, the invocation ends there: no translation provider is
    called, neither a [final] nor an [error] frame is written, and the state
    is [listening]. *)
Theorem blank_transcript_back_to_listening
    (now : Z) (i : nat) (text : option jsstring) (w : World) :
  flights w !! i = Some awaitTranscription ->
  blank text = true ->
  let r := handle now (settled i (transcription text)) w in
  state (session (fst r)) = listening
  /\ existsb isTranslationCall (snd r) = false
  /\ existsb isFinal (sent (snd r)) = false
  /\ existsb isError (sent (snd r)) = false
  /\ flights (fst r) = delete i (flights w).
Proof.
  intros Hi Hblank. cbn [handle]. unfold resume_flight. rewrite Hi.
  assert (Hret : forall w0 : World * list Effect,
            w0 = returns i (updateState now listening None) w ->
            state (session (fst w0)) = listening
            /\ existsb isTranslationCall (snd w0) = false
            /\ existsb isFinal (sent (snd w0)) = false
            /\ existsb isError (sent (snd w0)) = false
            /\ flights (fst w0) = delete i (flights w)).
  { intros w0 ->. rewrite returns_eq, updateState_eq.
    destruct (deliverable w); cbn; auto. }
  destruct text as [t|]; cbn [option_map blank] in *.
  - destruct (trim t); [|discriminate]. now apply Hret.
  - now apply Hret.
Qed.

Lemma blank_transcript_back_to_listening_witness :
  let r := handle 7 (settled 0 (transcription (Some (js "  ")))) demo_flushing in
  state (session (fst r)) = listening
  /\ existsb isTranslationCall (snd r) = false
  /\ existsb isFinal (sent (snd r)) = false
  /\ existsb isError (sent (snd r)) = false
  /\ flights (fst r) = delete 0%nat (flights demo_flushing).
Proof.
  apply (blank_transcript_back_to_listening 7 0 (Some (js "  ")) demo_flushing);
    reflexivity.
Defined.

(** C3, as the code has it. When the fallback answers an invocation whose
    primary translation had failed, and the session is still active on an
    open socket, exactly one [final] frame is written, carrying the
    fallback's reply trimmed of surrounding white space, followed by the
    [playing] status and by no [error]; when the session was stopped or the
    socket closed in the meantime, nothing is written. *)
Theorem fallback_reply_is_the_final
    (now : Z) (i : nat) (t d g content : jsstring) (w : World) :
  flights w !! i = Some (awaitChat t d g) ->
  sent (snd (handle now (settled i (completion content)) w)) =
  if deliverable w then [final t (trim content) d; status playing None] else [].
Proof.
  intros Hi. cbn [handle]. unfold resume_flight. rewrite Hi.
  rewrite returns_eq. cbn [snd].
  apply sendResult_eq.
Qed.

Lemma fallback_reply_is_the_final_witness :
  flights demo_fallback !! 0%nat = Some (awaitChat (js "Hello") (js "en") (js "es"))
  /\ sent (snd (handle 9 (settled 0 (completion (js " Hola "))) demo_fallback)) =
     [final (js "Hello") (js "Hola") (js "en"); status playing None].
Proof.
  split; [reflexivity|].
  apply (fallback_reply_is_the_final 9 0 (js "Hello") (js "en") (js "es") (js " Hola ")
           demo_fallback).
  reflexivity.
Defined.

(** C3 as stated does not hold: the primary translation fails, the session
    is stopped, the fallback then succeeds, and no [final] frame is
    written.  And on a live session the frame carries the fallback's reply
    without its surrounding white space, not the reply as it came. *)
Lemma fallback_reply_dropped_after_stop :
  flights (fst (handle 9 recv_stop demo_fallback)) !! 0%nat =
    Some (awaitChat (js "Hello") (js "en") (js "es"))
  /\ sent (snd (handle 10 (settled 0 (completion (js "Hola")))
                  (fst (handle 9 recv_stop demo_fallback)))) = []
  /\ sent (snd (handle 9 (settled 0 (completion (js " Hola "))) demo_fallback)) <>
     [final (js "Hello") (js " Hola ") (js "en"); status playing None].
Proof. repeat split. discriminate. Qed.

(** C4, as the code has it. The [catch] around the primary translation
    does not look at the failure: whatever its kind, credentials and quota
    included, the fallback is called once and nothing is written to the
    client.  Only a failure of the fallback is surfaced, as one [error]
    frame followed by the [listening] status; the session stays as active
    as it was. *)
Theorem translate_failure_calls_fallback
    (now : Z) (i : nat) (t d g : jsstring) (e : ProviderError) (w : World) :
  (flights w !! i = Some (awaitTranslate t d g) ->
     handle now (settled i (translateFailed e)) w =
     (with_flights (<[i := awaitChat t d g]>) w,
      [chatCall (langName d) (langName g) t
                (Z.min (Z.of_nat (length t) * 2) 1000)]))
  /\ (flights w !! i = Some (awaitChat t d g) ->
      let r := handle now (settled i (completionFailed e)) w in
      sent (snd r) =
        (if deliverable w
         then [error (js "Processing failed: " ++ message e); status listening None]
         else [])
      /\ existsb isTranslationCall (snd r) = false
      /\ state (session (fst r)) = listening
      /\ isActive (session (fst r)) = isActive (session w)).
Proof.
  split; intros Hi; cbn [handle]; unfold resume_flight; rewrite Hi.
  - reflexivity.
  - cbv zeta. rewrite returns_eq. cbn [fst snd].
    destruct (processingFailed_eq now e w) as (Hs & Hst & Hact).
    repeat split; try assumption.
    unfold processingFailed, sendError.
    rewrite !seq_eq, !updateState_eq, !send_eq.
    unfold deliverable. cbn.
    destruct (bool_decide (readyState w = OPEN) && isActive (session w)) eqn:Hd; cbn;
      rewrite ?Hd; reflexivity.
Qed.

Lemma translate_failure_calls_fallback_witness :
  handle 8 (settled 0 (translateFailed {| kind := auth; message := js "bad key" |}))
         demo_translating =
  (with_flights (<[0%nat := awaitChat (js "Hello") (js "en") (js "es")]>) demo_translating,
   [chatCall (js "English") (js "Spanish") (js "Hello") 10])
  /\ sent (snd (handle 9 (settled 0 (completionFailed
                   {| kind := auth; message := js "bad key" |})) demo_fallback)) =
     [error (js "Processing failed: bad key"); status listening None].
Proof.
  destruct (translate_failure_calls_fallback 8 0 (js "Hello") (js "en") (js "es")
              {| kind := auth; message := js "bad key" |} demo_translating) as [H1 _].
  destruct (translate_failure_calls_fallback 9 0 (js "Hello") (js "en") (js "es")
              {| kind := auth; message := js "bad key" |} demo_fallback) as [_ H2].
  split.
  - apply H1. reflexivity.
  - apply H2. reflexivity.
Defined.

(** C4 as stated does not hold: a primary translation rejected for
    credentials, and one rejected for quota, are each retried on the
    fallback, and no [error] frame is written at that point. *)
Lemma auth_failure_is_retried :
  flights demo_translating !! 0%nat =
    Some (awaitTranslate (js "Hello") (js "en") (js "es"))
  /\ existsb isFallbackCall
       (snd (handle 8 (settled 0 (translateFailed
                                    {| kind := auth; message := js "bad key" |}))
               demo_translating)) = true
  /\ existsb isError
       (sent (snd (handle 8 (settled 0 (translateFailed
                                    {| kind := auth; message := js "bad key" |}))
               demo_translating))) = false
  /\ existsb isFallbackCall
       (snd (handle 8 (settled 0 (translateFailed
                                    {| kind := quotaExceeded; message := js "quota" |}))
               demo_translating)) = true.
Proof. repeat split. Qed.

(** ** Dispatch and completion of a flush *)

(** What [updateState] leaves alone. *)
Lemma updateState_fields (now : Z) (s : State) (d : option jsstring) (w : World) :
  let w' := fst (updateState now s d w) in
  state (session w') = s
  /\ flights w' = flights w
  /\ audioBuffer (session w') = audioBuffer (session w)
  /\ vadState (session w') = vadState (session w)
  /\ isActive (session w') = isActive (session w).
Proof.
  cbv zeta. rewrite updateState_eq. destruct (deliverable w); cbn; auto.
Qed.

Lemma updateState_env (now : Z) (s : State) (d : option jsstring) (w : World) :
  assemblyThrows (fst (updateState now s d w)) = assemblyThrows w
  /\ deliverable (fst (updateState now s d w)) = deliverable w
  /\ runtime (fst (updateState now s d w)) = runtime w
  /\ rateOf (session (fst (updateState now s d w))) = rateOf (session w)
  /\ whisperLanguage (session (fst (updateState now s d w)))
     = whisperLanguage (session w).
Proof.
  rewrite updateState_eq. destruct (deliverable w) eqn:Hd; cbn; auto.
Qed.

(** The synchronous failure of a flush. *)
Lemma assemblyFailed_eq (now : Z) (w : World) :
  let r := assemblyFailed now w in
  snd r =
    (if deliverable w
     then [wsSend (error (js "Processing failed: " ++ faultMessage (runtime w)));
           wsSend (status listening None)]
     else [])
  /\ flights (fst r) = flights w
  /\ state (session (fst r)) = listening
  /\ audioBuffer (session (fst r)) = []
  /\ vadState (session (fst r)) = js "silence"
  /\ runtime (fst r) = runtime w.
Proof.
  cbv zeta. unfold assemblyFailed, sendError, clearBuffer.
  rewrite !seq_eq, !updateState_eq, !send_eq.
  unfold deliverable. cbn.
  destruct (bool_decide (readyState w = OPEN) && isActive (session w)) eqn:Hd; cbn;
    rewrite ?Hd; cbn; auto 10.
Qed.

Lemma requestTranscription_eq (w : World) :
  requestTranscription w =
  (with_flights (fun fs => fs ++ [awaitTranscription]) w,
   [transcribe (audioBuffer (session w)) (rateOf (session w))
               (whisperLanguage (session w))]).
Proof. reflexivity. Qed.

Lemma processAccumulatedAudio_eq (now : Z) (w : World) :
  processAccumulatedAudio now w =
  if (length (audioBuffer (session w)) =? 0)%nat then (w, [])
  else
    let w1 := fst (updateState now translating None w) in
    let o1 := snd (updateState now translating None w) in
    if assemblyThrows w
    then (fst (assemblyFailed now w1), o1 ++ snd (assemblyFailed now w1))
    else (with_flights (fun fs => fs ++ [awaitTranscription]) w1,
          o1 ++ [transcribe (audioBuffer (session w)) (rateOf (session w))
                            (whisperLanguage (session w))]).
Proof.
  unfold processAccumulatedAudio, cond, skip.
  destruct (length (audioBuffer (session w)) =? 0)%nat; [reflexivity|].
  rewrite seq_eq. cbv zeta.
  destruct (updateState_env now translating None w) as (Ht & _ & _ & Hr & Hl).
  rewrite Ht. destruct (assemblyThrows w); [reflexivity|].
  rewrite requestTranscription_eq. cbn [fst snd]. rewrite Hr, Hl.
  destruct (updateState_fields now translating None w) as (_ & _ & Hb & _).
  now rewrite Hb.
Qed.

(** What a dispatch does.  [fires]: the buffer holds audio; the flush then
    either ends at once because its synchronous part throws, or leaves a
    transcription pending. *)
Lemma dispatch_fields (now : Z) (w : World) :
  let w' := fst (processAccumulatedAudio now w) in
  let fires := negb (length (audioBuffer (session w)) =? 0)%nat in
  flights w' =
    (if fires && negb (assemblyThrows w) then flights w ++ [awaitTranscription]
     else flights w)
  /\ state (session w') =
    (if fires then (if assemblyThrows w then listening else translating)
     else state (session w))
  /\ audioBuffer (session w') =
    (if fires && assemblyThrows w then [] else audioBuffer (session w))
  /\ vadState (session w') =
    (if fires && assemblyThrows w then js "silence" else vadState (session w)).
Proof.
  cbv zeta. rewrite processAccumulatedAudio_eq.
  destruct (length (audioBuffer (session w)) =? 0)%nat; [cbn; auto|].
  cbv zeta. cbn [negb andb].
  destruct (updateState_fields now translating None w) as (Hs & Hf & Hb & Hv & _).
  destruct (assemblyThrows w); cbn [negb fst].
  - destruct (assemblyFailed_eq now (fst (updateState now translating None w)))
      as (_ & Hf' & Hs' & Hb' & Hv' & _).
    rewrite Hf', Hs', Hb', Hv', Hf. auto.
  - unfold with_flights. cbn [flights session]. rewrite Hs, Hf, Hb, Hv. auto.
Qed.


Lemma pushed_nonempty (now : Z) (pcm16 : jsstring) (n : Z) (w : World) :
  (length (audioBuffer (session (pushed now pcm16 n w))) =? 0)%nat = false.
Proof.
  cbn. rewrite length_app. cbn. apply Nat.eqb_neq. lia.
Qed.

Lemma audio_fields (now : Z) (pcm16 : jsstring) (n : Z) (w : World) :
  let w' := fst (handle now (recv_audio pcm16 n) w) in
  let due := negb (bool_decide (state (session w) = paused))
             && flushDue (pushed now pcm16 n w) in
  flights w' =
    (if due && negb (assemblyThrows w) then flights w ++ [awaitTranscription]
     else flights w)
  /\ state (session w') =
    (if due then (if assemblyThrows w then listening else translating)
     else state (session w))
  /\ audioBuffer (session w') =
     (if bool_decide (state (session w) = paused) then audioBuffer (session w)
      else if due && assemblyThrows w then []
      else audioBuffer (session (pushed now pcm16 n w)))
  /\ vadState (session w') =
     (if due && assemblyThrows w then js "silence" else vadState (session w)).
Proof.
  cbv zeta. cbn [handle]. unfold processAudioChunk, cond, skip.
  destruct (bool_decide (state (session w) = paused)); [cbn; auto|].
  rewrite seq_eq. cbn [modify fst snd negb andb].
  fold (pushed now pcm16 n w).
  destruct (flushDue (pushed now pcm16 n w)); [|cbn; auto].
  destruct (dispatch_fields now (pushed now pcm16 n w)) as (Hf & Hs & Hb & Hv).
  rewrite pushed_nonempty in Hf, Hs, Hb, Hv.
  change (assemblyThrows (pushed now pcm16 n w)) with (assemblyThrows w)
    in Hf, Hs, Hb, Hv.
  rewrite Hf, Hs, Hb, Hv. cbn. auto.
Qed.


Lemma sendResult_flights (now : Z) (t tr d : jsstring) (w : World) :
  flights (fst (sendResult now t tr d w)) = flights w.
Proof.
  unfold sendResult, sendFinal. rewrite !seq_eq, !updateState_eq, !send_eq.
  cbn [emit modify fst snd].
  repeat match goal with |- context [if ?c then _ else _] => destruct c end;
    reflexivity.
Qed.

Lemma processingFailed_flights (now : Z) (e : ProviderError) (w : World) :
  flights (fst (processingFailed now e w)) = flights w.
Proof.
  unfold processingFailed, sendError. rewrite !seq_eq, !updateState_eq, !send_eq.
  cbn [fst snd].
  repeat match goal with |- context [if ?c then _ else _] => destruct c end;
    reflexivity.
Qed.

(** A settlement either ends the invocation it answers, and then the outer
    [finally] has run, or leaves the number of invocations, the buffer, the
    VAD marker and the state as they are. *)
Lemma settled_fields (now : Z) (i : nat) (r : Settled) (w : World) :
  let w' := fst (handle now (settled i r) w) in
  (is_Some (flights w !! i)
   /\ flights w' = delete i (flights w)
   /\ audioBuffer (session w') = []
   /\ vadState (session w') = js "silence")
  \/ (length (flights w') = length (flights w)
      /\ audioBuffer (session w') = audioBuffer (session w)
      /\ vadState (session w') = vadState (session w)
      /\ state (session w') = state (session w)).
Proof.
  cbv zeta. cbn [handle]. unfold resume_flight.
  assert (Hret : forall body,
            flights (fst (body w)) = flights w ->
            is_Some (flights w !! i) ->
            is_Some (flights w !! i)
            /\ flights (fst (returns i body w)) = delete i (flights w)
            /\ audioBuffer (session (fst (returns i body w))) = []
            /\ vadState (session (fst (returns i body w))) = js "silence").
  { intros body Hb Hi. rewrite returns_eq. cbn. rewrite Hb. auto. }
  assert (Hupd : flights (fst (updateState now listening None w)) = flights w)
    by apply updateState_fields.
  destruct (flights w !! i) as [f|] eqn:Hi; [|right; cbn; auto].
  assert (Hsome : is_Some (Some f)) by eauto.
  destruct f as [|t d g|t d g]; destruct r as [text|e|tr|e|c|e];
    try (right; cbn; now auto);
    try (left; apply Hret;
         [first [apply sendResult_flights | apply processingFailed_flights] | exact Hsome]);
    try (right; cbn; rewrite length_insert; now auto).
  destruct (option_map trim text) as [[|c0 t0]|].
  - left. now apply Hret.
  - destruct (negb _).
    + right. cbn. rewrite length_insert. auto.
    + left. apply Hret; [apply sendResult_flights | exact Hsome].
  - left. now apply Hret.
Qed.

Lemma vad_fields (now : Z) (event : jsstring) (w : World) :
  let w' := fst (handle now (recv_vad event) w) in
  flights w' = flights w
  /\ state (session w') = state (session w)
  /\ audioBuffer (session w') = audioBuffer (session w).
Proof.
  cbv zeta. cbn [handle]. unfold handleVAD. rewrite seq_eq.
  destruct (eqb event (js "begin")); [cbn; auto|].
  destruct (eqb event (js "end")); [|cbn; auto].
  rewrite seq_eq. unfold cond. cbn [modify fst snd].
  match goal with |- context [if ?c then _ else _] => destruct c end; cbn; auto.
Qed.

Lemma grace_fields (now : Z) (w : World) :
  let w' := fst (handle now timeout_grace w) in
  let fires := negb (bool_decide (graceTimers w = O))
               && negb (length (audioBuffer (session w)) =? 0)%nat in
  flights w' =
    (if fires && negb (assemblyThrows w) then flights w ++ [awaitTranscription]
     else flights w)
  /\ state (session w') =
    (if fires then (if assemblyThrows w then listening else translating)
     else state (session w))
  /\ audioBuffer (session w') =
    (if fires && assemblyThrows w then [] else audioBuffer (session w))
  /\ vadState (session w') =
    (if fires && assemblyThrows w then js "silence" else vadState (session w)).
Proof.
  cbv zeta. cbn [handle]. unfold graceElapsed, cond, skip.
  destruct (bool_decide (graceTimers w = O)); [cbn; auto|].
  rewrite seq_eq. cbn [modify fst snd negb andb].
  destruct (dispatch_fields now (with_graceTimers Nat.pred w)) as (Hf & Hs & Hb & Hv).
  change (assemblyThrows (with_graceTimers Nat.pred w)) with (assemblyThrows w)
    in Hf, Hs, Hb, Hv.
  change (audioBuffer (session (with_graceTimers Nat.pred w)))
    with (audioBuffer (session w)) in Hf, Hs, Hb, Hv.
  change (flights (with_graceTimers Nat.pred w)) with (flights w) in Hf.
  change (state (session (with_graceTimers Nat.pred w)))
    with (state (session w)) in Hs.
  change (vadState (session (with_graceTimers Nat.pred w)))
    with (vadState (session w)) in Hv.
  rewrite Hf, Hs, Hb, Hv. auto.
Qed.

Lemma playback_fields (now : Z) (i : nat) (w : World) :
  let w' := fst (handle now (timeout_playback i) w) in
  flights w' = flights w
  /\ (state (session w') = state (session w)
      \/ state (session w) = playing /\ state (session w') = listening).
Proof.
  cbv zeta. cbn [handle]. unfold playbackElapsed, cond, skip.
  destruct (bool_decide (is_Some (playbackTimers w !! i))); [|cbn; auto].
  rewrite seq_eq. cbn [modify fst snd].
  destruct (isActive _ && bool_decide _) eqn:Hc; [|cbn; auto].
  apply andb_true_iff in Hc as [_ Hp]. apply bool_decide_eq_true in Hp.
  cbn in Hp.
  pose proof (updateState_fields now listening None
                (with_playbackTimers (delete i) w)) as (Hs & Hf & _).
  rewrite Hf, Hs. cbn. auto.
Qed.

Lemma malformed_fields (now : Z) (m : jsstring) (w : World) :
  let w' := fst (handle now (recv_malformed m) w) in
  flights w' = flights w /\ state (session w') = state (session w).
Proof.
  cbv zeta. cbn [handle]. unfold sendError. rewrite send_eq.
  destruct (deliverable w); cbn; auto.
Qed.


(** Every change of [state], by event. *)
Lemma handle_state_edge (now : Z) (e : Event) (w : World) :
  state (session (fst (handle now e w))) = state (session w)
  \/ code_edge e (state (session w)) (state (session (fst (handle now e w)))) = true.
Proof.
  destruct e as [pcm n|ev| | | |ty|err|r| | | |i|i r|rt].
  - destruct (audio_fields now pcm n w) as (_ & Hs & _). rewrite Hs.
    destruct (bool_decide (state (session w) = paused)) eqn:Hp; cbn; auto.
    destruct (flushDue _); cbn; auto.
    right. rewrite Hp. destruct (assemblyThrows w); reflexivity.
  - left. apply vad_fields.
  - right. cbn [handle code_edge]. unfold pause.
    destruct (updateState_fields now paused None w) as (Hs & _). now rewrite Hs.
  - right. cbn [handle code_edge]. unfold resume.
    destruct (updateState_fields now listening None w) as (Hs & _). now rewrite Hs.
  - left. reflexivity.
  - left. reflexivity.
  - left. apply malformed_fields.
  - left. reflexivity.
  - left. reflexivity.
  - left. reflexivity.
  - destruct (grace_fields now w) as (_ & Hs & _). rewrite Hs.
    match goal with |- context [if ?c && ?d then _ else _] => destruct (c && d) end;
      cbn; auto.
    right. destruct (assemblyThrows w); reflexivity.
  - destruct (playback_fields now i w) as (_ & [Hs|[Hp Hs]]); [now left|].
    right. cbn [code_edge]. rewrite Hp, Hs. reflexivity.
  - cbn [handle code_edge]. unfold resume_flight.
    assert (Hret : forall body s,
              state (session (fst (body w))) = s ->
              state (session (fst (returns i body w))) = s).
    { intros body s Hb. rewrite returns_eq. cbn. exact Hb. }
    assert (Hres : forall t tr d,
              state (session (fst (returns i (sendResult now t tr d) w))) = playing)
      by (intros; apply Hret, sendResult_eq).
    assert (Hfail : forall e,
              state (session (fst (returns i (processingFailed now e) w))) = listening)
      by (intros; apply Hret, processingFailed_eq).
    assert (Hlis : state (session (fst (returns i (updateState now listening None) w)))
                   = listening)
      by (apply Hret, updateState_fields).
    destruct (flights w !! i) as [[|t d g|t d g]|]; destruct r as [text|e|tr|e|c|e];
      try (left; reflexivity);
      try (right; rewrite Hres; reflexivity);
      try (right; rewrite Hfail; reflexivity).
    destruct (option_map trim text) as [[|c0 t0]|].
    + right. rewrite Hlis. reflexivity.
    + destruct (negb _).
      * left. reflexivity.
      * right. rewrite Hres. reflexivity.
    + right. rewrite Hlis. reflexivity.
  - left. reflexivity.
Qed.

(** ** The duration threshold *)


(** For a positive rate, [durationMs >= 1500] says that the buffered
    samples amount to at least a second and a half. *)
Lemma flush_threshold (s : Session) :
  0 < rateOf s ->
  (Qle_bool (inject_Z 1500) (durationMs s) = true
   <-> 3 * rateOf s <= 2 * totalSamples (audioBuffer s)).
Proof.
  intros Hr. rewrite Qle_bool_iff. unfold durationMs.
  generalize (totalSamples (audioBuffer s)). intros t.
  destruct (rateOf s) as [|p|p]; try lia.
  unfold Qle, Qmult, Qdiv, Qinv, inject_Z. cbn.
  rewrite !Pos.mul_1_r. lia.
Qed.

(** ** Flushes overlap *)





(** ** State changes *)

(** C2, as the code has it. [state] changes only in [updateState], and the
    value it takes depends on the event alone: [translating] when an audio
    frame (session not paused) or the grace timer dispatches a flush, or
    [listening] when that flush fails before its first provider call (a
    flush that finds audio ends its first transition in [listening] when
    its synchronous part throws and in [translating] otherwise);
    [playing] when a pipeline delivers its result; [listening] on resume,
    on a blank transcript, on a failed pipeline and when the playback timer
    finds the session [playing]; [paused] on pause - each from whatever
    state the session is in.  Stop, close and socket errors leave [state]
    alone, as do VAD hints, unknown and malformed frames; [start] enters
    [listening] from the constructor's [idle]. *)
Theorem state_changes_by_event :
  (forall now e w,
     state (session (fst (handle now e w))) = state (session w)
     \/ code_edge e (state (session w)) (state (session (fst (handle now e w)))) = true)
  /\ (forall now w,
        state (session (fst (processAccumulatedAudio now w))) =
        if (length (audioBuffer (session w)) =? 0)%nat then state (session w)
        else if assemblyThrows w then listening else translating)
  /\ (forall now sid cfg r,
        state (InterpreterSession now sid cfg) = idle
        /\ state (session (fst (start now sid cfg r))) = listening).
Proof.
  split; [exact handle_state_edge|].
  split.
  - intros now w. destruct (dispatch_fields now w) as (_ & Hs & _).
    rewrite Hs. destruct (length (audioBuffer (session w)) =? 0)%nat; reflexivity.
  - intros now sid cfg r. split; [reflexivity|].
    unfold start. apply updateState_fields.
Qed.

(** C2 as stated does not hold: a resume frame during a flush takes the
    session from [translating] to [listening], a blank transcript does the
    same, and a grace timer that fires on a paused session takes it from
    [paused] to [translating]; none is an edge of the specification. *)
Lemma resume_leaves_translating :
  state (session demo_flushing) = translating
  /\ state (session (fst (handle 6 recv_resume demo_flushing))) = listening
  /\ spec_edge (spec_state translating) (spec_state listening) = false
  /\ state (session (fst (run demo_start
       [(5, recv_audio (js "AAAA") 160); (6, recv_vad (js "end"));
        (7, recv_pause)]))) = paused
  /\ state (session (fst (run demo_start
       [(5, recv_audio (js "AAAA") 160); (6, recv_vad (js "end"));
        (7, recv_pause); (106, timeout_grace)]))) = translating
  /\ spec_edge (spec_state paused) (spec_state translating) = false.
Proof. repeat split. Qed.

(** ** The buffer *)

(** C6, as the code has it. A flush whose synchronous part does not throw
    leaves the buffer and the VAD marker as they are at dispatch, and
    chunks that arrive while it is in flight are appended to the same
    buffer.  They are emptied and reset to [silence] by the outer
    [finally], that is when the invocation ends, on each of its exits: at
    once when the synchronous part throws, otherwise with the provider
    answer that ends it; an answer that does not end an invocation leaves
    them untouched. *)
Theorem buffer_cleared_when_flush_ends :
  (forall now w,
     assemblyThrows w = false ->
     audioBuffer (session (fst (processAccumulatedAudio now w))) = audioBuffer (session w)
     /\ vadState (session (fst (processAccumulatedAudio now w))) = vadState (session w))
  /\ (forall now w,
        audioBuffer (session w) <> [] ->
        assemblyThrows w = true ->
        audioBuffer (session (fst (processAccumulatedAudio now w))) = []
        /\ vadState (session (fst (processAccumulatedAudio now w))) = js "silence"
        /\ flights (fst (processAccumulatedAudio now w)) = flights w)
  /\ (forall now pcm16 n w,
        state (session w) <> paused ->
        assemblyThrows w = false ->
        audioBuffer (session (fst (handle now (recv_audio pcm16 n) w))) =
        audioBuffer (session w)
        ++ [{| base64Pcm := pcm16; samples := n; timestamp := now |}])
  /\ (forall now i r w,
        let w' := fst (handle now (settled i r) w) in
        (is_Some (flights w !! i)
         /\ flights w' = delete i (flights w)
         /\ audioBuffer (session w') = []
         /\ vadState (session w') = js "silence")
        \/ (length (flights w') = length (flights w)
            /\ audioBuffer (session w') = audioBuffer (session w)
            /\ vadState (session w') = vadState (session w))).
Proof.
  split; [|split; [|split]].
  - intros now w Hok. destruct (dispatch_fields now w) as (_ & _ & Hb & Hv).
    rewrite Hb, Hv, Hok, !andb_false_r. auto.
  - intros now w Hne Hthrows.
    destruct (dispatch_fields now w) as (Hf & _ & Hb & Hv).
    rewrite Hf, Hb, Hv, Hthrows.
    destruct (audioBuffer (session w)); [contradiction|]. cbn. auto.
  - intros now pcm16 n w Hnp Hok.
    destruct (audio_fields now pcm16 n w) as (_ & _ & Hb & _). rewrite Hb.
    rewrite (bool_decide_eq_false_2 _ Hnp), Hok, andb_false_r. reflexivity.
  - intros now i r w.
    destruct (settled_fields now i r w) as [H|(Hl & Hb & Hv & _)]; [now left|].
    right. auto.
Qed.

Lemma buffer_cleared_when_flush_ends_witness :
  state (session demo_flushing) <> paused
  /\ assemblyThrows demo_flushing = false
  /\ audioBuffer (session (fst (handle 6 (recv_audio (js "BBBB") 160) demo_flushing))) =
     [ {| base64Pcm := js "AAAA"; samples := 24000; timestamp := 5 |};
       {| base64Pcm := js "BBBB"; samples := 160; timestamp := 6 |} ]
  /\ audioBuffer (session (fst (processAccumulatedAudio 6 demo_flushing))) =
     audioBuffer (session demo_flushing)
  /\ assemblyThrows (pushed 5 (js "AAAA") 160 demo_bad_rate) = true
  /\ audioBuffer (session (fst (processAccumulatedAudio 6
                                  (pushed 5 (js "AAAA") 160 demo_bad_rate)))) = [].
Proof.
  destruct buffer_cleared_when_flush_ends as (Hkeep & Hthrow & Hpush & _).
  assert (Hnp : state (session demo_flushing) <> paused) by discriminate.
  assert (Hok : assemblyThrows demo_flushing = false) by reflexivity.
  assert (Hbad : assemblyThrows (pushed 5 (js "AAAA") 160 demo_bad_rate) = true)
    by reflexivity.
  split; [exact Hnp|]. split; [exact Hok|]. split.
  - exact (Hpush 6 (js "BBBB") 160 demo_flushing Hnp Hok).
  - split; [exact (proj1 (Hkeep 6 demo_flushing Hok))|].
    split; [exact Hbad|].
    apply (Hthrow 6 (pushed 5 (js "AAAA") 160 demo_bad_rate)); [discriminate|exact Hbad].
Defined.

(** C6 as stated does not hold: with a flush in flight, the buffer still
    holds the chunk that was flushed, and after a VAD end the marker is
    still [end_detected]. *)
Lemma buffer_kept_while_in_flight :
  flights demo_flushing = [awaitTranscription]
  /\ audioBuffer (session demo_flushing) =
     [ {| base64Pcm := js "AAAA"; samples := 24000; timestamp := 5 |} ]
  /\ flights (fst (run demo_start
       [(5, recv_audio (js "AAAA") 160); (6, recv_vad (js "end"));
        (106, timeout_grace)])) = [awaitTranscription]
  /\ vadState (session (fst (run demo_start
       [(5, recv_audio (js "AAAA") 160); (6, recv_vad (js "end"));
        (106, timeout_grace)]))) = js "end_detected".
Proof. repeat split. Qed.

(** ** The audio trigger *)

(** C7, as the code has it. For sample counts and a rate in the range
    where the source's doubles are exact, an audio frame leaves a flush in
    flight exactly when the session is not paused - in [listening],
    [translating] or [playing] alike - and, with the chunk pushed, the
    buffered duration is at least 1500 ms or the VAD marker is
    [end_detected], and the synchronous part of the flush does not throw.
    For a positive rate the duration test is [3 * rate <= 2 * total
    samples].  The buffer is empty as soon as the flush's invocation has
    ended, and a flush on an empty buffer does nothing. *)
Theorem audio_trigger :
  (forall now pcm16 n w,
     doubleExact (session (pushed now pcm16 n w)) = true ->
     flights (fst (handle now (recv_audio pcm16 n) w)) =
     if negb (bool_decide (state (session w) = paused))
        && flushDue (pushed now pcm16 n w)
        && negb (assemblyThrows w)
     then flights w ++ [awaitTranscription]
     else flights w)
  /\ (forall s, doubleExact s = true -> 0 < rateOf s ->
        (Qle_bool (inject_Z 1500) (durationMs s) = true
         <-> 3 * rateOf s <= 2 * totalSamples (audioBuffer s)))
  /\ (forall now i r w,
        (length (flights (fst (handle now (settled i r) w))) < length (flights w))%nat ->
        audioBuffer (session (fst (handle now (settled i r) w))) = [])
  /\ (forall now w,
        audioBuffer (session w) <> [] -> assemblyThrows w = true ->
        audioBuffer (session (fst (processAccumulatedAudio now w))) = [])
  /\ (forall now w, audioBuffer (session w) = [] ->
        processAccumulatedAudio now w = (w, [])).
Proof.
  split; [intros now pcm16 n w _; apply audio_fields|].
  split; [intros s _; apply flush_threshold|]. split; [|split].
  - intros now i r w Hlt.
    destruct (settled_fields now i r w) as [(_ & _ & Hb & _)|(Hl & _)];
      [exact Hb | lia].
  - intros now w Hne Hthrows.
    destruct (dispatch_fields now w) as (_ & _ & Hb & _).
    rewrite Hb, Hthrows. destruct (audioBuffer (session w)); [contradiction|].
    reflexivity.
  - intros now w Hb. rewrite processAccumulatedAudio_eq, Hb. reflexivity.
Qed.

Lemma audio_trigger_witness :
  doubleExact (session (pushed 6 (js "AAAA") 160 demo_flushing)) = true
  /\ flights (fst (handle 6 (recv_audio (js "AAAA") 160) demo_flushing)) =
     [awaitTranscription; awaitTranscription]
  /\ (Qle_bool (inject_Z 1500) (durationMs (session demo_flushing)) = true
      <-> 3 * 16000 <= 2 * 24000)
  /\ audioBuffer (session (fst (handle 7 (settled 0 (transcription None)) demo_flushing)))
     = []
  /\ audioBuffer (session (fst (processAccumulatedAudio 6
                                  (pushed 5 (js "AAAA") 160 demo_bad_rate)))) = []
  /\ processAccumulatedAudio 1 demo_start = (demo_start, []).
Proof.
  destruct audio_trigger as (Haudio & Hthr & Hend & Hthrow & Hnoop).
  split; [reflexivity|]. split; [|split; [|split; [|split]]].
  - apply (Haudio 6 (js "AAAA") 160 demo_flushing). reflexivity.
  - apply (Hthr (session demo_flushing)); reflexivity.
  - apply (Hend 7 0%nat (transcription None) demo_flushing).
    apply Nat.ltb_lt. reflexivity.
  - apply (Hthrow 6 (pushed 5 (js "AAAA") 160 demo_bad_rate));
      [discriminate | reflexivity].
  - apply (Hnoop 1 demo_start). reflexivity.
Defined.

(** C7 as stated does not hold: a session that is [playing] after a
    result, and one that is [translating] during a flush, each dispatch a
    flush on the next chunk that meets the threshold. *)
Lemma flush_dispatched_while_playing :
  state (session demo_playing) = playing
  /\ flights demo_playing = []
  /\ flights (fst (handle 20 (recv_audio (js "AAAA") 24000) demo_playing)) =
     [awaitTranscription]
  /\ state (session demo_flushing) = translating
  /\ length (flights (fst (handle 6 (recv_audio (js "AAAA") 24000) demo_flushing))) =
     S (length (flights demo_flushing)).
Proof. repeat split. Qed.

(** ** The WAV container *)

Lemma overwrite_zeros (bs : list Z) : Buffer.overwrite bs (repeat 0 (length bs)) = bs.
Proof. induction bs as [|b bs IH]; [reflexivity|]. cbn. now rewrite IH. Qed.

Lemma le32_value (v : Z) :
  0 <= v <= 4294967295 ->
  Z.land v 255 + Z.land (Z.shiftr v 8) 255 * 2 ^ 8
  + Z.land (Z.shiftr v 16) 255 * 2 ^ 16 + Z.land (Z.shiftr v 24) 255 * 2 ^ 24 = v.
Proof.
  intros Hv. change 255 with (Z.ones 8).
  rewrite !Z.land_ones, !Z.shiftr_div_pow2 by lia.
  change (2 ^ 8) with 256. change (2 ^ 16) with 65536. change (2 ^ 24) with 16777216.
  Z.div_mod_to_equations. lia.
Qed.

Lemma le16_value (v : Z) :
  0 <= v <= 65535 ->
  Z.land v 255 + Z.land (Z.shiftr v 8) 255 * 2 ^ 8 = v.
Proof.
  intros Hv. change 255 with (Z.ones 8).
  rewrite !Z.land_ones, !Z.shiftr_div_pow2 by lia.
  change (2 ^ 8) with 256.
  Z.div_mod_to_equations. lia.
Qed.

Lemma wavFits_true (size rate ch : Z) :
  0 <= size ->
  (wavFits size rate ch = true <->
   size <= 4294967259 /\ 0 <= ch <= 32767 /\ 0 <= rate <= 4294967295
   /\ rate * ch * 2 <= 4294967295).
Proof.
  intros Hs. unfold wavFits. rewrite !andb_true_iff, !Z.leb_le. lia.
Qed.

Section WavFacts.

Variable fromBase64 : jsstring -> list Z.

Lemma pcm16ToWav_fits (b : jsstring) (rate ch : Z) :
  wavFits (Z.of_nat (length (fromBase64 b))) rate ch = true ->
  pcm16ToWav fromBase64 b rate ch =
  Some (wavHeader (Z.of_nat (length (fromBase64 b))) rate ch ++ fromBase64 b).
Proof.
  intros Hfit. apply wavFits_true in Hfit; [|lia].
  destruct Hfit as (Hs & Hc & Hr & Hb).
  unfold pcm16ToWav, Buffer.writeUInt32LE, Buffer.writeUInt16LE, Buffer.copy,
    Buffer.write, Buffer.alloc, wavHeaderSize.
  assert (Hs0 : 0 <= Z.of_nat (length (fromBase64 b))) by lia.
  set (size := Z.of_nat (length (fromBase64 b))) in *. clearbody size.
  generalize (fromBase64 b). intros pcm.
  assert (H1 : (0 <=? 36 + size) && (36 + size <=? 4294967295) = true)
    by (apply andb_true_iff; split; apply Z.leb_le; lia).
  assert (H2 : (0 <=? ch) && (ch <=? 65535) = true)
    by (apply andb_true_iff; split; apply Z.leb_le; lia).
  assert (H3 : (0 <=? rate) && (rate <=? 4294967295) = true)
    by (apply andb_true_iff; split; apply Z.leb_le; lia).
  assert (H4 : (0 <=? rate * ch * 2) && (rate * ch * 2 <=? 4294967295) = true)
    by (apply andb_true_iff; split; apply Z.leb_le; nia).
  assert (H5 : (0 <=? ch * 2) && (ch * 2 <=? 65535) = true)
    by (apply andb_true_iff; split; apply Z.leb_le; lia).
  assert (H6 : (0 <=? size) && (size <=? 4294967295) = true)
    by (apply andb_true_iff; split; apply Z.leb_le; lia).
  rewrite H1, H2, H3, H4, H5, H6.
  unfold wavHeader.
  set (riff := 36 + size) in *. set (rate2 := rate * ch * 2) in *.
  set (align := ch * 2) in *. clearbody riff rate2 align.
  cbn -[Z.land Z.shiftr].
  rewrite overwrite_zeros. reflexivity.
Qed.


Lemma pcm16ToWav_overflow (b : jsstring) (rate ch : Z) :
  wavFits (Z.of_nat (length (fromBase64 b))) rate ch = false ->
  pcm16ToWav fromBase64 b rate ch = None.
Proof.
  intros Hfit.
  unfold pcm16ToWav, Buffer.writeUInt32LE, Buffer.writeUInt16LE.
  assert (Hs0 : 0 <= Z.of_nat (length (fromBase64 b))) by lia.
  set (size := Z.of_nat (length (fromBase64 b))) in *. clearbody size.
  destruct ((0 <=? 36 + size) && (36 + size <=? 4294967295)) eqn:E1; [|reflexivity].
  destruct ((0 <=? ch) && (ch <=? 65535)) eqn:E2; [|reflexivity].
  destruct ((0 <=? rate) && (rate <=? 4294967295)) eqn:E3; [|reflexivity].
  destruct ((0 <=? rate * ch * 2) && (rate * ch * 2 <=? 4294967295)) eqn:E4;
    [|reflexivity].
  destruct ((0 <=? ch * 2) && (ch * 2 <=? 65535)) eqn:E5; [|reflexivity].
  exfalso.
  apply andb_true_iff in E1 as [_ E1], E2 as [E2 _], E3 as [E3 E3'],
    E4 as [_ E4], E5 as [_ E5].
  apply Z.leb_le in E1, E2, E3, E3', E4, E5.
  assert (Hok : wavFits size rate ch = true) by (apply wavFits_true; lia).
  congruence.
Qed.

(** X1. [pcm16ToWav] returns the 44-byte header followed by the decoded
    samples, untouched, whenever every integer field of the header can hold
    its value: with [n] sample bytes, [36 + n], the rate and the byte rate
    [rate * channels * 2] within 32 bits, the channel count non-negative
    and the block alignment [channels * 2] within 16 bits. *)
Theorem pcm16ToWav_layout (b : jsstring) (rate ch : Z) :
  wavFits (Z.of_nat (length (fromBase64 b))) rate ch = true ->
  pcm16ToWav fromBase64 b rate ch =
    Some (wavHeader (Z.of_nat (length (fromBase64 b))) rate ch ++ fromBase64 b)
  /\ length (wavHeader (Z.of_nat (length (fromBase64 b))) rate ch) = 44%nat.
Proof. intros Hfit. split; [now apply pcm16ToWav_fits | reflexivity]. Qed.

(** X2. [pcm16ToWav] throws exactly when a header field cannot hold its
    value; with the default single channel that is a negative sample rate,
    a rate above 2^31 - 1, or more than 2^32 - 37 bytes of samples. *)
Theorem pcm16ToWav_throws (b : jsstring) (rate ch : Z) :
  (pcm16ToWav fromBase64 b rate ch = None
   <-> wavFits (Z.of_nat (length (fromBase64 b))) rate ch = false)
  /\ (pcm16ToWav fromBase64 b rate 1 = None
      <-> rate < 0 \/ 2147483647 < rate
          \/ 4294967259 < Z.of_nat (length (fromBase64 b))).
Proof.
  assert (Hiff : forall c, pcm16ToWav fromBase64 b rate c = None
            <-> wavFits (Z.of_nat (length (fromBase64 b))) rate c = false).
  { intros c. split.
    - intros Hnone.
      destruct (wavFits (Z.of_nat (length (fromBase64 b))) rate c) eqn:Hfit;
        [|reflexivity].
      rewrite (pcm16ToWav_fits b rate c Hfit) in Hnone. discriminate.
    - apply pcm16ToWav_overflow. }
  split; [apply Hiff|]. rewrite Hiff.
  pose proof (wavFits_true (Z.of_nat (length (fromBase64 b))) rate 1
                ltac:(lia)) as Hfit.
  destruct (wavFits (Z.of_nat (length (fromBase64 b))) rate 1).
  - split; [discriminate|]. intros Hbad.
    pose proof (proj1 Hfit eq_refl). lia.
  - split; [|reflexivity]. intros _.
    destruct (Z_lt_dec rate 0) as [|Hr]; [now left|].
    destruct (Z_lt_dec 2147483647 rate) as [|Hr']; [now right; left|].
    right; right.
    destruct (Z_lt_dec 4294967259 (Z.of_nat (length (fromBase64 b)))) as [|Hs];
      [assumption|].
    assert (false = true) by (apply Hfit; lia). discriminate.
Qed.

(** X3. The container reads back: in the buffer [pcm16ToWav] returns, the
    RIFF size is the buffer's length less 8, the data size its length less
    44, the rate, byte rate, channel count and block alignment are the ones
    passed in, the sample width is 16, the format tag 1, and the bytes from
    offset 44 on are the decoded samples. *)
Theorem pcm16ToWav_reads_back (b : jsstring) (rate ch : Z) (wav : list Z) :
  pcm16ToWav fromBase64 b rate ch = Some wav ->
  length wav = (44 + length (fromBase64 b))%nat
  /\ Buffer.readUInt32LE wav 4 = Some (Z.of_nat (length wav) - 8)
  /\ Buffer.readUInt32LE wav 40 = Some (Z.of_nat (length wav) - 44)
  /\ Buffer.readUInt16LE wav 20 = Some 1
  /\ Buffer.readUInt16LE wav 22 = Some ch
  /\ Buffer.readUInt32LE wav 24 = Some rate
  /\ Buffer.readUInt32LE wav 28 = Some (rate * ch * 2)
  /\ Buffer.readUInt16LE wav 32 = Some (ch * 2)
  /\ Buffer.readUInt16LE wav 34 = Some 16
  /\ take 4 wav = List.map Z.of_N (js "RIFF")
  /\ drop 44 wav = fromBase64 b.
Proof.
  intros Hwav.
  destruct (wavFits (Z.of_nat (length (fromBase64 b))) rate ch) eqn:Hfit;
    [|rewrite (pcm16ToWav_overflow b rate ch Hfit) in Hwav; discriminate].
  rewrite (pcm16ToWav_fits b rate ch Hfit) in Hwav.
  assert (Heq : wav = wavHeader (Z.of_nat (length (fromBase64 b))) rate ch
                      ++ fromBase64 b) by congruence.
  subst wav. clear Hwav.
  apply wavFits_true in Hfit; [|lia]. destruct Hfit as (Hs & Hc & Hr & Hb).
  assert (Hlen : length (wavHeader (Z.of_nat (length (fromBase64 b))) rate ch
                         ++ fromBase64 b) = (44 + length (fromBase64 b))%nat)
    by (rewrite length_app; reflexivity).
  rewrite Hlen.
  replace (Z.of_nat (44 + length (fromBase64 b)) - 8)
    with (36 + Z.of_nat (length (fromBase64 b))) by lia.
  replace (Z.of_nat (44 + length (fromBase64 b)) - 44)
    with (Z.of_nat (length (fromBase64 b))) by lia.
  set (size := Z.of_nat (length (fromBase64 b))) in *.
  assert (Hs0 : 0 <= size) by (unfold size; lia). clearbody size.
  unfold wavHeader, Buffer.readUInt32LE, Buffer.readUInt16LE, Buffer.le32, Buffer.le16.
  cbn -[Z.land Z.shiftr Z.pow Z.add Z.mul].
  rewrite !le32_value by nia. rewrite !le16_value by lia.
  repeat split; reflexivity.
Qed.

End WavFacts.

Lemma pcm16ToWav_layout_witness :
  pcm16ToWav (List.map Z.of_N) (js "abc") 16000 1 =
  Some (wavHeader 3 16000 1 ++ [97; 98; 99]).
Proof.
  apply (pcm16ToWav_layout (List.map Z.of_N) (js "abc") 16000 1). reflexivity.
Defined.

Lemma pcm16ToWav_reads_back_witness :
  Buffer.readUInt32LE (wavHeader 3 16000 1 ++ [97; 98; 99]) 28 = Some (16000 * 1 * 2)
  /\ drop 44 (wavHeader 3 16000 1 ++ [97; 98; 99]) = [97; 98; 99].
Proof.
  pose proof (pcm16ToWav_reads_back (List.map Z.of_N) (js "abc") 16000 1
                (wavHeader 3 16000 1 ++ [97; 98; 99]) eq_refl) as H.
  split; apply H.
Defined.

(** ** Target language *)

Lemma eqb_true (a b : jsstring) : eqb a b = true <-> a = b.
Proof. unfold eqb. apply bool_decide_eq_true. Qed.

Lemma eqb_false (a b : jsstring) : eqb a b = false <-> a <> b.
Proof. unfold eqb. apply bool_decide_eq_false. Qed.

Ltac eqb_cases :=
  repeat match goal with
  | |- context [eqb ?a ?b] =>
      let E := fresh "E" in
      destruct (eqb a b) eqn:E;
      [apply eqb_true in E | apply eqb_false in E]
  end.

(** X4. Whatever the configuration and the detected language,
    [getTargetLanguage] never answers ["auto"]: what it answers is one of
    the two configured codes, en or es, and a configured ["auto"] is
    always replaced. *)
Theorem getTargetLanguage_never_auto (detectedLang : jsstring) (cfg : Config) :
  In (getTargetLanguage detectedLang cfg) [from cfg; to cfg; js "en"; js "es"]
  /\ (getTargetLanguage detectedLang cfg <> js "auto").
Proof.
  unfold getTargetLanguage. split.
  - eqb_cases; cbn [andb negb]; eqb_cases; cbn [In]; auto.
  - eqb_cases; cbn [andb negb]; eqb_cases; try congruence; discriminate.
Qed.

(** X5. In alternate mode the target always differs from the detected
    language when both sides are ["auto"] or when two different languages
    are configured, so such a session translates every utterance. *)
Theorem alternate_target_differs (detectedLang : jsstring) (cfg : Config) :
  mode cfg = js "alternate" ->
  (from cfg = js "auto" /\ to cfg = js "auto")
  \/ (from cfg <> js "auto" /\ to cfg <> js "auto" /\ from cfg <> to cfg) ->
  getTargetLanguage detectedLang cfg <> detectedLang.
Proof.
  intros Hmode Hcfg. unfold getTargetLanguage.
  rewrite (proj2 (eqb_true _ _) Hmode).
  destruct Hcfg as [[Hf Ht]|(Hf & Ht & Hne)].
  - rewrite (proj2 (eqb_true _ _) Hf), (proj2 (eqb_true _ _) Ht). cbn [andb].
    eqb_cases; [subst; discriminate | congruence].
  - rewrite (proj2 (eqb_false _ _) Hf), (proj2 (eqb_false _ _) Ht). cbn [andb].
    eqb_cases; congruence.
Qed.

Lemma alternate_target_differs_witness :
  getTargetLanguage (js "es")
    {| from := js "en"; to := js "es"; mode := js "alternate"; sampleRate := None |}
  <> js "es".
Proof.
  apply (alternate_target_differs (js "es")
           {| from := js "en"; to := js "es"; mode := js "alternate";
              sampleRate := None |}).
  - reflexivity.
  - right. repeat split; discriminate.
Defined.

(** ** Script priority *)

Lemma han_not_whitespace (c : N) :
  (0x4e00 <= c <= 0x9fff)%N -> isWhiteSpace c = false.
Proof.
  intros [Hlo Hhi]. unfold isWhiteSpace.
  repeat match goal with
  | |- context [(?a <=? ?b)%N] => destruct (N.leb_spec a b)
  | |- context [(?a =? ?b)%N] => destruct (N.eqb_spec a b)
  end; simpl; try reflexivity; lia.
Qed.

(** X6. A text with a CJK ideograph and no code unit of the Arabic block
    is classified zh whatever else it contains: Japanese written with
    kanji and kana is zh, not ja, because the Chinese pattern is tested
    first. *)
Theorem ideograph_means_zh (text : jsstring) (c : N) :
  In c text -> (0x4e00 <= c <= 0x9fff)%N ->
  arabicPattern text = false ->
  detectLanguageFromText text = js "zh".
Proof.
  intros Hin Hc Har. unfold detectLanguageFromText.
  assert (Hne : falsy text || (length (trim text) =? 0)%nat = false).
  { apply orb_false_iff. split.
    - destruct text; [contradiction | reflexivity].
    - pose proof (trim_keeps c text Hin (han_not_whitespace c Hc)) as Hk.
      destruct (trim text); [contradiction | reflexivity]. }
  rewrite Hne, Har.
  change (urduPattern text) with (arabicPattern text). rewrite Har.
  unfold chinesePattern. now rewrite (testRange_true _ _ c text Hin Hc).
Qed.

Lemma ideograph_means_zh_witness :
  japanesePattern [0x65E5; 0x672C; 0x8A9E; 0x3067; 0x3059]%N = true
  /\ detectLanguageFromText [0x65E5; 0x672C; 0x8A9E; 0x3067; 0x3059]%N = js "zh".
Proof.
  split; [reflexivity|].
  apply (ideograph_means_zh [0x65E5; 0x672C; 0x8A9E; 0x3067; 0x3059]%N 0x65E5%N);
    [simpl; tauto | lia | reflexivity].
Defined.

(** ** What a transition writes and calls *)

Lemma updateState_out (now : Z) (s : State) (d : option jsstring) (w : World) :
  snd (updateState now s d w) =
  if deliverable w then [wsSend (status s (dirField d))] else [].
Proof. rewrite updateState_eq. destruct (deliverable w); reflexivity. Qed.

Lemma dispatch_out (now : Z) (w : World) :
  snd (processAccumulatedAudio now w) =
  if (length (audioBuffer (session w)) =? 0)%nat then []
  else if assemblyThrows w
  then (if deliverable w
        then [wsSend (status translating None);
              wsSend (error (js "Processing failed: " ++ faultMessage (runtime w)));
              wsSend (status listening None)]
        else [])
  else (if deliverable w then [wsSend (status translating None)] else [])
       ++ [transcribe (audioBuffer (session w)) (rateOf (session w))
                      (whisperLanguage (session w))].
Proof.
  rewrite processAccumulatedAudio_eq.
  destruct (length (audioBuffer (session w)) =? 0)%nat; [reflexivity|].
  cbv zeta.
  destruct (updateState_env now translating None w) as (_ & Hd & Hr & _).
  destruct (assemblyThrows w); cbn [snd].
  - destruct (assemblyFailed_eq now (fst (updateState now translating None w)))
      as (Ho & _).
    rewrite Ho, Hd, Hr, updateState_out. destruct (deliverable w); reflexivity.
  - now rewrite updateState_out.
Qed.

Lemma sendResult_out (now : Z) (t tr d : jsstring) (w : World) :
  snd (sendResult now t tr d w) =
  (if deliverable w
   then [wsSend (final t tr d); wsSend (status playing None)] else [])
  ++ [setTimeout playback (playbackDuration tr)].
Proof.
  unfold sendResult, sendFinal. rewrite !seq_eq, !updateState_eq, !send_eq.
  unfold deliverable. cbn.
  destruct (bool_decide (readyState w = OPEN) && isActive (session w)) eqn:Hd; cbn;
    rewrite ?Hd; reflexivity.
Qed.

Lemma processingFailed_out (now : Z) (e : ProviderError) (w : World) :
  snd (processingFailed now e w) =
  if deliverable w
  then [wsSend (error (js "Processing failed: " ++ message e));
        wsSend (status listening None)]
  else [].
Proof.
  unfold processingFailed, sendError. rewrite !seq_eq, !updateState_eq, !send_eq.
  unfold deliverable. cbn.
  destruct (bool_decide (readyState w = OPEN) && isActive (session w)) eqn:Hd; cbn;
    rewrite ?Hd; reflexivity.
Qed.

Lemma returns_out (i : nat) (body : Act) (w : World) :
  snd (returns i body w) = snd (body w).
Proof. now rewrite returns_eq. Qed.

(** The effects of the events that are not provider answers. *)
Lemma handle_out (now : Z) (e : Event) (w : World) :
  (forall i r, e <> settled i r) ->
  snd (handle now e w) = []
  \/ (exists s, snd (handle now e w) = [wsSend (status s None)])
  \/ (exists m, snd (handle now e w) = [wsSend (error m)])
  \/ snd (handle now e w) = [setTimeout graceDelay 100]
  \/ (exists m, snd (handle now e w) =
        [wsSend (status translating None); wsSend (error m);
         wsSend (status listening None)])
  \/ (exists seg rate language,
        snd (handle now e w) = [transcribe seg rate language]
        \/ snd (handle now e w) =
           [wsSend (status translating None); transcribe seg rate language]).
Proof.
  intros Hns.
  assert (Hdisp : forall w0,
            snd (processAccumulatedAudio now w0) = []
            \/ (exists m, snd (processAccumulatedAudio now w0) =
                  [wsSend (status translating None); wsSend (error m);
                   wsSend (status listening None)])
            \/ exists seg rate language,
                 snd (processAccumulatedAudio now w0) = [transcribe seg rate language]
                 \/ snd (processAccumulatedAudio now w0) =
                    [wsSend (status translating None); transcribe seg rate language]).
  { intros w0. rewrite dispatch_out.
    destruct (length (audioBuffer (session w0)) =? 0)%nat; [now left|].
    destruct (assemblyThrows w0).
    - destruct (deliverable w0); [right; left; eauto | now left].
    - right; right. do 3 eexists. destruct (deliverable w0); cbn; eauto. }
  assert (Hupd : forall s w0,
            snd (updateState now s None w0) = []
            \/ exists s', snd (updateState now s None w0) = [wsSend (status s' None)]).
  { intros s w0. rewrite updateState_out.
    destruct (deliverable w0); cbn; eauto. }
  destruct e as [pcm n|ev| | | |ty|err|r| | | |i|i r|rt];
    try (left; reflexivity).
  - cbn [handle]. unfold processAudioChunk, cond, skip.
    destruct (bool_decide (state (session w) = paused)); [now left|].
    rewrite seq_eq. cbn [modify fst snd app].
    destruct (flushDue _); [|now left].
    destruct (Hdisp (with_session
      (fun s => set_audioBuffer
         (audioBuffer s ++ [{| base64Pcm := pcm; samples := n; timestamp := now |}]) s)
      w)) as [H|[H|H]];
      [now left | do 4 right; left; exact H | do 5 right; exact H].
  - cbn [handle]. unfold handleVAD. rewrite seq_eq. cbn [modify fst snd app].
    destruct (eqb ev (js "begin")); [now left|].
    destruct (eqb ev (js "end")); [|now left].
    rewrite seq_eq. unfold cond. cbn [modify fst snd app].
    match goal with |- context [if ?c then _ else _] => destruct c end;
      [do 3 right; left; reflexivity | now left].
  - cbn [handle]. unfold pause.
    destruct (Hupd paused w) as [H|H]; [now left | right; left; exact H].
  - cbn [handle]. unfold resume.
    destruct (Hupd listening w) as [H|H]; [now left | right; left; exact H].
  - cbn [handle]. unfold sendError. rewrite send_eq.
    destruct (deliverable w); [do 2 right; left; eauto | now left].
  - cbn [handle]. unfold graceElapsed, cond, skip.
    destruct (bool_decide (graceTimers w = O)); [now left|].
    rewrite seq_eq. cbn [modify fst snd app].
    destruct (Hdisp (with_graceTimers Nat.pred w)) as [H|[H|H]];
      [now left | do 4 right; left; exact H | do 5 right; exact H].
  - cbn [handle]. unfold playbackElapsed, cond, skip.
    destruct (bool_decide (is_Some (playbackTimers w !! i))); [|now left].
    rewrite seq_eq. cbn [modify fst snd app].
    destruct (isActive _ && bool_decide _); [|now left].
    destruct (Hupd listening (with_playbackTimers (delete i) w)) as [H|H];
      [now left | right; left; exact H].
  - exfalso. now apply (Hns i r).
Qed.

(** ** Provider answers *)

Lemma resume_flight_outcome (now : Z) (i : nat) (r : Settled) (w : World) (f : Flight) :
  flights w !! i = Some f ->
  Outcome now i w f (handle now (settled i r) w).
Proof.
  intros Hi. cbn [handle]. unfold resume_flight. rewrite Hi.
  destruct f as [|t d g|t d g]; destruct r as [text|e|tr|e|c|e];
    try apply out_stutter;
    try (apply out_ends; constructor);
    try apply out_fallback.
  destruct (option_map trim text) as [[|c0 t0]|] eqn:Ht.
  - apply out_ends. constructor.
  - destruct (negb _) eqn:Hne.
    + apply out_translate; [discriminate|].
      apply negb_true_iff in Hne. now apply eqb_false in Hne.
    + apply out_ends. constructor.
  - apply out_ends. constructor.
Qed.

Lemma no_flight_stutters (now : Z) (i : nat) (r : Settled) (w : World) :
  flights w !! i = None -> handle now (settled i r) w = (w, []).
Proof. intros Hi. cbn [handle]. unfold resume_flight. now rewrite Hi. Qed.

Lemma Ending_flights (now : Z) (body : Act) (w : World) :
  Ending now body -> flights (fst (body w)) = flights w.
Proof.
  intros [|t tr d|e];
    [apply updateState_fields | apply sendResult_flights | apply processingFailed_flights].
Qed.

Lemma Ending_state (now : Z) (body : Act) (w : World) :
  Ending now body ->
  state (session (fst (body w))) = listening \/ state (session (fst (body w))) = playing.
Proof.
  intros [|t tr d|e].
  - left. apply updateState_fields.
  - right. apply sendResult_eq.
  - left. apply processingFailed_eq.
Qed.

Lemma Ending_frames (now : Z) (body : Act) (w : World) :
  Ending now body -> frameShape (sent (snd (body w))).
Proof.
  intros [|t tr d|e]; unfold frameShape.
  - rewrite updateState_out. destruct (deliverable w); cbn; eauto.
  - rewrite sendResult_out. destruct (deliverable w); cbn; eauto 10.
  - rewrite processingFailed_out. destruct (deliverable w); cbn; eauto 10.
Qed.

Lemma Ending_calls (now : Z) (body : Act) (w : World) :
  Ending now body -> existsb isTranslationCall (snd (body w)) = false.
Proof.
  intros [|t tr d|e].
  - rewrite updateState_out. destruct (deliverable w); reflexivity.
  - rewrite sendResult_out. destruct (deliverable w); reflexivity.
  - rewrite processingFailed_out. destruct (deliverable w); reflexivity.
Qed.

Lemma Ending_no_call (now : Z) (body : Act) (w : World) :
  Ending now body -> existsb isProviderCall (snd (body w)) = false.
Proof.
  intros [|t tr d|e].
  - rewrite updateState_out. destruct (deliverable w); reflexivity.
  - rewrite sendResult_out. destruct (deliverable w); reflexivity.
  - rewrite processingFailed_out. destruct (deliverable w); reflexivity.
Qed.

(** X7. A provider answer that is not the answer to the call the
    invocation awaits changes nothing.  The answer it awaits either ends
    the invocation, with no provider call; or, for an invocation awaiting
    its transcription, makes the one call to the primary translation and
    leaves it awaiting that; or, for an invocation awaiting the primary
    translation, makes the one call to the fallback and leaves it awaiting
    that.  An invocation awaiting the fallback can only end. *)
Theorem settlement_progress (now : Z) (i : nat) (r : Settled) (w : World) (f : Flight) :
  flights w !! i = Some f ->
  (answers f r = false -> handle now (settled i r) w = (w, []))
  /\ (answers f r = true ->
      (flights (fst (handle now (settled i r) w)) = delete i (flights w)
       /\ existsb isProviderCall (snd (handle now (settled i r) w)) = false)
      \/ (f = awaitTranscription
          /\ exists t d g,
               flights (fst (handle now (settled i r) w))
                 = <[i := awaitTranslate t d g]> (flights w)
               /\ snd (handle now (settled i r) w) = [translateCall t d g])
      \/ (exists t d g,
            f = awaitTranslate t d g
            /\ flights (fst (handle now (settled i r) w))
                 = <[i := awaitChat t d g]> (flights w)
            /\ snd (handle now (settled i r) w) =
                 [chatCall (langName d) (langName g) t
                           (Z.min (Z.of_nat (length t) * 2) 1000)])).
Proof.
  intros Hi.
  assert (Hend : forall body, Ending now body ->
            flights (fst (returns i body w)) = delete i (flights w)
            /\ existsb isProviderCall (snd (returns i body w)) = false).
  { intros body Hb. rewrite returns_eq. cbn [fst snd]. split.
    - cbn. f_equal. now apply (Ending_flights now).
    - now apply (Ending_no_call now). }
  cbn [handle]. unfold resume_flight. rewrite Hi.
  destruct f as [|t d g|t d g]; destruct r as [text|e|tr|e|c|e]; cbn [answers];
    (split; intros Ha; [try discriminate Ha; reflexivity | try discriminate Ha]).
  - destruct (option_map trim text) as [[|c0 t0]|].
    + left. apply Hend. constructor.
    + destruct (negb _).
      * right; left. split; [reflexivity|]. do 3 eexists. split; reflexivity.
      * left. apply Hend. constructor.
    + left. apply Hend. constructor.
  - left. apply Hend. constructor.
  - left. apply Hend. constructor.
  - right; right. exists t, d, g. repeat split.
  - left. apply Hend. constructor.
  - left. apply Hend. constructor.
Qed.

Lemma settlement_progress_witness :
  handle 7 (settled 0 (translation (js "Hola"))) demo_flushing = (demo_flushing, [])
  /\ snd (handle 7 (settled 0 (transcription (Some (js " Hello ")))) demo_flushing)
     = [translateCall (js "Hello") (js "en") (js "es")]
  /\ snd (handle 8 (settled 0 (translateFailed
                      {| kind := transient; message := js "unavailable" |}))
            demo_translating)
     = [chatCall (js "English") (js "Spanish") (js "Hello") 10].
Proof.
  destruct (settlement_progress 7 0 (translation (js "Hola")) demo_flushing
              awaitTranscription eq_refl) as [Hno _].
  destruct (settlement_progress 7 0 (transcription (Some (js " Hello ")))
              demo_flushing awaitTranscription eq_refl) as [_ Hyes].
  destruct (settlement_progress 8 0
              (translateFailed {| kind := transient; message := js "unavailable" |})
              demo_translating (awaitTranslate (js "Hello") (js "en") (js "es"))
              eq_refl) as [_ Hfb].
  split; [exact (Hno eq_refl)|]. split; reflexivity.
Defined.

(** X8. When a provider answer ends an invocation the session is in
    [listening] or [playing], whatever state it was in: a pause received
    while the flush was in flight does not survive the flush. *)
Theorem flush_end_overrides_state (now : Z) (i : nat) (r : Settled) (w : World) :
  (length (flights (fst (handle now (settled i r) w))) < length (flights w))%nat ->
  state (session (fst (handle now (settled i r) w))) = listening
  \/ state (session (fst (handle now (settled i r) w))) = playing.
Proof.
  intros Hlt.
  destruct (flights w !! i) as [f|] eqn:Hi;
    [|rewrite (no_flight_stutters now i r w Hi) in Hlt; cbn in Hlt; lia].
  destruct (resume_flight_outcome now i r w f Hi) as [f|f body Hb|t d g Ht Hd|t d g].
  - cbn in Hlt. lia.
  - rewrite returns_eq. cbn. now apply (Ending_state now).
  - cbn in Hlt. rewrite length_insert in Hlt. lia.
  - cbn in Hlt. rewrite length_insert in Hlt. lia.
Qed.

Lemma flush_end_overrides_state_witness :
  state (session (fst (handle 6 recv_pause demo_flushing))) = paused
  /\ state (session (fst (handle 7 (settled 0 (transcription None))
                            (fst (handle 6 recv_pause demo_flushing))))) = listening.
Proof.
  split; [reflexivity|].
  destruct (flush_end_overrides_state 7 0 (transcription None)
              (fst (handle 6 recv_pause demo_flushing))) as [H|H].
  - apply Nat.ltb_lt. reflexivity.
  - exact H.
  - discriminate H.
Defined.

(** X9. One transition writes at most three frames, and only in these
    shapes: a single status; a [final] followed at once by the [playing]
    status; an [error] followed at once by the [listening] status; a lone
    [error] for a frame that could not be parsed; or, for a flush whose
    synchronous part throws, the [translating] status, an [error] and the
    [listening] status.  No status frame ever carries a direction. *)
Theorem frames_of_a_transition (now : Z) (e : Event) (w : World) :
  frameShape (sent (snd (handle now e w))).
Proof.
  destruct e as [pcm n|ev| | | |ty|err|rs| | | |j|i r|rt];
    try (match goal with
         | |- frameShape (sent (snd (handle ?n ?e ?w0))) =>
             destruct (handle_out n e w0 ltac:(intros; discriminate))
               as [H|[[s H]|[[m H]|[H|[[m H]|(seg & rate & language & [H|H])]]]]];
             rewrite H; unfold frameShape; cbn; eauto 10
         end; fail).
  destruct (flights w !! i) as [f|] eqn:Hi;
    [|rewrite (no_flight_stutters now i r w Hi); now left].
  destruct (resume_flight_outcome now i r w f Hi)
    as [f|f body Hb|t d g Ht Hd|t d g]; try (now left).
  rewrite returns_out. now apply (Ending_frames now).
Qed.

(** X10. When the detected language is already the target, the transcript
    is passed through: the [final] frame carries it as the translation and
    no translation provider is called. *)
Theorem same_language_passes_through (now : Z) (i : nat) (t : jsstring) (w : World) :
  flights w !! i = Some awaitTranscription ->
  trim t <> [] ->
  getTargetLanguage (detectLanguageFromText (trim t)) (config (session w))
    = detectLanguageFromText (trim t) ->
  let r := handle now (settled i (transcription (Some t))) w in
  sent (snd r) =
    (if deliverable w
     then [final (trim t) (trim t) (detectLanguageFromText (trim t));
           status playing None]
     else [])
  /\ existsb isTranslationCall (snd r) = false
  /\ flights (fst r) = delete i (flights w).
Proof.
  intros Hi Hne Hsame. cbn [handle]. unfold resume_flight. rewrite Hi.
  cbn [option_map]. destruct (trim t) as [|c0 t0] eqn:Ht; [contradiction|].
  rewrite Hsame, (proj2 (eqb_true _ _) eq_refl). cbn [negb].
  cbv zeta. rewrite returns_eq. cbn [fst snd].
  split; [apply sendResult_eq|]. split.
  - apply (Ending_calls now). constructor.
  - cbn. f_equal. apply sendResult_flights.
Qed.

Lemma same_language_passes_through_witness :
  let w := fst (run (fst (start 0 (js "s2")
                      {| from := js "auto"; to := js "en"; mode := js "fixed";
                         sampleRate := None |} OPEN))
                    [(5, recv_audio (js "AAAA") 24000)]) in
  sent (snd (handle 7 (settled 0 (transcription (Some (js " Hello ")))) w)) =
  [final (js "Hello") (js "Hello") (js "en"); status playing None].
Proof.
  cbv zeta.
  apply (same_language_passes_through 7 0 (js " Hello ")
           (fst (run (fst (start 0 (js "s2")
                      {| from := js "auto"; to := js "en"; mode := js "fixed";
                         sampleRate := None |} OPEN))
                    [(5, recv_audio (js "AAAA") 24000)]))).
  - reflexivity.
  - discriminate.
  - reflexivity.
Defined.

(** ** Calls to the translation providers *)

Lemma settled_wellFormed (now : Z) (i : nat) (r : Settled) (w : World) :
  Forall flightWellFormed (flights w) ->
  Forall flightWellFormed (flights (fst (handle now (settled i r) w)))
  /\ Forall callWellFormed (snd (handle now (settled i r) w)).
Proof.
  intros Hinv.
  destruct (flights w !! i) as [f|] eqn:Hi;
    [|rewrite (no_flight_stutters now i r w Hi); split; [exact Hinv | constructor]].
  pose proof (Forall_lookup_1 _ _ _ _ Hinv Hi) as Hf.
  destruct (resume_flight_outcome now i r w f Hi)
    as [f|f body Hb|t d g Ht Hd|t d g].
  - split; [exact Hinv | constructor].
  - rewrite returns_eq. cbn [fst snd flights with_flights]. split.
    + cbn. rewrite (Ending_flights now body w Hb). now apply Forall_delete.
    + pose proof (Ending_calls now body w Hb) as Hc.
      apply Forall_forall. intros c Hin.
      destruct c; cbn; auto;
        (assert (Hex : existsb isTranslationCall (snd (body w)) = true)
           by (apply existsb_exists; eexists; split;
               [apply list_elem_of_In; exact Hin | reflexivity]);
         congruence).
  - cbn. split; [|repeat constructor; assumption].
    apply Forall_insert; [exact Hinv | split; assumption].
  - cbn in Hf. destruct Hf as [Ht Hd]. cbn. split.
    + apply Forall_insert; [exact Hinv | split; assumption].
    + repeat constructor; [exact Ht|..]; destruct t; try contradiction;
        cbn [length]; lia.
Qed.

Lemma handle_wellFormed (now : Z) (e : Event) (w : World) :
  Forall flightWellFormed (flights w) ->
  Forall flightWellFormed (flights (fst (handle now e w)))
  /\ Forall callWellFormed (snd (handle now e w)).
Proof.
  intros Hinv.
  assert (Hgrow : Forall flightWellFormed (flights w ++ [awaitTranscription]))
    by (apply Forall_app; split; [exact Hinv | repeat constructor]).
  assert (Hout : (forall i r, e <> settled i r) ->
            Forall callWellFormed (snd (handle now e w))).
  { intros Hns.
    destruct (handle_out now e w Hns)
      as [H|[[s H]|[[m H]|[H|[[m H]|(seg & rate & language & [H|H])]]]]];
      rewrite H; repeat constructor. }
  destruct e as [pcm n|ev| | | |ty|err|rs| | | |j|i r|rt];
    try (split; [|apply Hout; intros; discriminate]).
  - destruct (audio_fields now pcm n w) as (Hf & _). rewrite Hf.
    match goal with |- context [if ?c then _ else _] => destruct c end; assumption.
  - destruct (vad_fields now ev w) as (Hf & _). now rewrite Hf.
  - destruct (updateState_fields now paused None w) as (_ & Hf & _).
    cbn [handle]. unfold pause. now rewrite Hf.
  - destruct (updateState_fields now listening None w) as (_ & Hf & _).
    cbn [handle]. unfold resume. now rewrite Hf.
  - exact Hinv.
  - exact Hinv.
  - destruct (malformed_fields now err w) as (Hf & _). now rewrite Hf.
  - exact Hinv.
  - exact Hinv.
  - exact Hinv.
  - destruct (grace_fields now w) as (Hf & _). rewrite Hf.
    match goal with |- context [if ?c then _ else _] => destruct c end; assumption.
  - destruct (playback_fields now j w) as (Hf & _). now rewrite Hf.
  - now apply settled_wellFormed.
  - exact Hinv.
Qed.

Lemma run_wellFormed (schedule : list (Z * Event)) (w : World) :
  Forall flightWellFormed (flights w) ->
  Forall callWellFormed (snd (run w schedule)).
Proof.
  revert w. induction schedule as [|[now e] rest IH]; intros w Hinv.
  - constructor.
  - rewrite run_cons. cbn [snd].
    destruct (handle_wellFormed now e w Hinv) as [Hf Hc].
    apply Forall_app. split; [exact Hc | now apply IH].
Qed.

(** X11. Over the whole life of a session, whatever the frames, timers and
    provider answers, the primary translation is never called with an
    empty text or with the same source and target language, and the
    fallback is never called with an empty text; its token budget is
    between 2 and 1000. *)
Theorem translation_calls_wellFormed
    (now : Z) (sid : jsstring) (cfg : Config) (r : ReadyState)
    (schedule : list (Z * Event)) :
  Forall callWellFormed (snd (run (fst (start now sid cfg r)) schedule)).
Proof.
  apply run_wellFormed.
  unfold start.
  match goal with
  | |- context [updateState now listening None ?w0] =>
      destruct (updateState_fields now listening None w0) as (_ & Hf & _)
  end.
  rewrite Hf. constructor.
Qed.

(** ** Voice-activity hints *)

Lemma vad_end_fields (now : Z) (w : World) :
  let w' := fst (handle now (recv_vad (js "end")) w) in
  vadState (session w') = js "end_detected"
  /\ graceTimers w' =
     (if (length (audioBuffer (session w)) =? 0)%nat then graceTimers w
      else S (graceTimers w)).
Proof.
  cbv zeta. cbn [handle]. unfold handleVAD.
  rewrite (proj2 (eqb_false (js "end") (js "begin"))) by discriminate.
  rewrite (proj2 (eqb_true (js "end") (js "end"))) by reflexivity.
  rewrite !seq_eq. unfold cond. cbn [modify fst snd].
  change (audioBuffer (session (with_session (set_vadState (js "end_detected"))
            (with_session (set_vadState (js "end")) w))))
    with (audioBuffer (session w)).
  destruct (audioBuffer (session w)); cbn; auto.
Qed.

Lemma vad_env (now : Z) (ev : jsstring) (w : World) :
  assemblyThrows (fst (handle now (recv_vad ev) w)) = assemblyThrows w.
Proof.
  cbn [handle]. unfold handleVAD. rewrite seq_eq.
  destruct (eqb ev (js "begin")); [reflexivity|].
  destruct (eqb ev (js "end")); [|reflexivity].
  rewrite seq_eq. unfold cond. cbn [modify fst snd].
  match goal with |- context [if ?c then _ else _] => destruct c end; reflexivity.
Qed.

(** X12. A VAD end sets the marker to [end_detected], and the grace timer
    that follows leaves exactly one more flush in flight when the buffer
    holds audio and the synchronous part of the flush does not throw -
    whatever the buffered duration and whatever the state, [paused]
    included - and none when the buffer is empty or the synchronous part
    throws. *)
Theorem vad_end_flushes_once (now now' : Z) (w : World) :
  let w1 := fst (handle now (recv_vad (js "end")) w) in
  vadState (session w1) = js "end_detected"
  /\ flights w1 = flights w
  /\ flights (fst (handle now' timeout_grace w1)) =
     (if (length (audioBuffer (session w)) =? 0)%nat || assemblyThrows w
      then flights w
      else flights w ++ [awaitTranscription]).
Proof.
  cbv zeta.
  destruct (vad_end_fields now w) as (Hv & Hg).
  destruct (vad_fields now (js "end") w) as (Hf & _ & Hb).
  split; [exact Hv|]. split; [exact Hf|].
  destruct (grace_fields now' (fst (handle now (recv_vad (js "end")) w)))
    as (Hf' & _).
  rewrite Hf', Hg, Hb, Hf, vad_env.
  destruct (length (audioBuffer (session w)) =? 0)%nat.
  - now rewrite andb_false_r.
  - cbn. destruct (assemblyThrows w); reflexivity.
Qed.

(** X13. Once a VAD end has been received, the next audio frame of a
    session that is not paused dispatches a flush at once, however short
    the buffered audio: a transcription is left in flight unless the
    synchronous part of the flush throws. *)
Theorem audio_after_vad_end_flushes (now now' : Z) (pcm16 : jsstring) (n : Z) (w : World) :
  state (session w) <> paused ->
  flights (fst (run w [(now, recv_vad (js "end")); (now', recv_audio pcm16 n)])) =
  if assemblyThrows w then flights w else flights w ++ [awaitTranscription].
Proof.
  intros Hnp. rewrite run_cons. cbn [fst]. rewrite run_cons. cbn [fst run].
  destruct (vad_end_fields now w) as (Hv & _).
  destruct (vad_fields now (js "end") w) as (Hf & Hs & _).
  destruct (audio_fields now' pcm16 n (fst (handle now (recv_vad (js "end")) w)))
    as (Hf' & _).
  rewrite Hf'. rewrite Hs. rewrite (bool_decide_eq_false_2 _ Hnp). cbn [negb andb].
  assert (Hdue : flushDue (pushed now' pcm16 n
                   (fst (handle now (recv_vad (js "end")) w))) = true).
  { unfold flushDue. apply orb_true_iff. right.
    change (vadState (session (pushed now' pcm16 n
              (fst (handle now (recv_vad (js "end")) w)))))
      with (vadState (session (fst (handle now (recv_vad (js "end")) w)))).
    rewrite Hv. reflexivity. }
  rewrite Hdue, Hf, vad_env. cbn [andb]. destruct (assemblyThrows w); reflexivity.
Qed.

Lemma audio_after_vad_end_flushes_witness :
  flights (fst (run demo_start
     [(5, recv_vad (js "end")); (6, recv_audio (js "AAAA") 160)])) =
  flights demo_start ++ [awaitTranscription]
  /\ flights (fst (run demo_bad_rate
     [(5, recv_vad (js "end")); (6, recv_audio (js "AAAA") 160)])) =
  flights demo_bad_rate.
Proof.
  split.
  - apply (audio_after_vad_end_flushes 5 6 (js "AAAA") 160 demo_start). discriminate.
  - apply (audio_after_vad_end_flushes 5 6 (js "AAAA") 160 demo_bad_rate). discriminate.
Defined.

(** ** A flush that fails before its first call *)

Lemma bad_rate_throws (w : World) :
  rateOf (session w) < 0 \/ 2147483647 < rateOf (session w) ->
  assemblyThrows w = true.
Proof.
  intros Hbad. unfold assemblyThrows. apply orb_true_iff. right.
  apply negb_true_iff.
  destruct (wavFits 0 (rateOf (session w)) 1) eqn:Hfit; [|reflexivity].
  apply wavFits_true in Hfit; lia.
Qed.

(** X22. When the sample rate of the [start] frame is negative or above
    2^31 - 1, [pcm16ToWav] throws for every segment, and every flush of the
    session that finds audio in the buffer fails before its first provider
    call: the client gets the [translating] status, an [error] and the
    [listening] status, no provider is called, no call is left pending,
    the state is [listening] and the buffered audio is dropped. *)
Theorem bad_rate_flush_fails (fromBase64 : jsstring -> list Z) (b : jsstring)
    (now : Z) (w : World) :
  rateOf (session w) < 0 \/ 2147483647 < rateOf (session w) ->
  audioBuffer (session w) <> [] ->
  pcm16ToWav fromBase64 b (rateOf (session w)) 1 = None
  /\ sent (snd (processAccumulatedAudio now w)) =
     (if deliverable w
      then [status translating None;
            error (js "Processing failed: " ++ faultMessage (runtime w));
            status listening None]
      else [])
  /\ existsb isProviderCall (snd (processAccumulatedAudio now w)) = false
  /\ flights (fst (processAccumulatedAudio now w)) = flights w
  /\ state (session (fst (processAccumulatedAudio now w))) = listening
  /\ audioBuffer (session (fst (processAccumulatedAudio now w))) = [].
Proof.
  intros Hbad Hne.
  pose proof (bad_rate_throws w Hbad) as Hthrows.
  split.
  - apply pcm16ToWav_overflow.
    destruct (wavFits _ (rateOf (session w)) 1) eqn:Hfit; [|reflexivity].
    apply wavFits_true in Hfit; lia.
  - destruct (dispatch_fields now w) as (Hf & Hs & Hb & _).
    rewrite dispatch_out, Hf, Hs, Hb, Hthrows.
    destruct (audioBuffer (session w)); [contradiction|].
    cbn [length Nat.eqb negb andb].
    destruct (deliverable w); cbn; auto.
Qed.

Lemma bad_rate_flush_fails_witness :
  sent (snd (run demo_bad_rate
    [(5, recv_vad (js "end")); (6, recv_audio (js "AAAA") 160)])) =
  [status translating None;
   error (js "Processing failed: " ++ faultMessage (runtime demo_bad_rate));
   status listening None]
  /\ sent (snd (processAccumulatedAudio 6 (pushed 5 (js "AAAA") 160 demo_bad_rate))) =
     [status translating None;
      error (js "Processing failed: " ++ faultMessage (runtime demo_bad_rate));
      status listening None].
Proof.
  split; [reflexivity|].
  apply (bad_rate_flush_fails (List.map Z.of_N) (js "AAAA") 6
           (pushed 5 (js "AAAA") 160 demo_bad_rate)).
  - left. reflexivity.
  - discriminate.
Defined.

(** A negative sample rate: the flush that the first audio frame after a
    VAD end dispatches fails in [pcm16ToWav]; three frames are written, no
    provider is called, nothing is left in flight and the chunk is
    dropped. *)
Example scenario_bad_rate :
  let r := run demo_bad_rate
             [(5, recv_vad (js "end")); (6, recv_audio (js "AAAA") 160)] in
  snd r =
    [ wsSend (status translating None);
      wsSend (error (js "Processing failed: " ++ faultMessage (runtime demo_bad_rate)));
      wsSend (status listening None) ]
  /\ flights (fst r) = []
  /\ state (session (fst r)) = listening
  /\ audioBuffer (session (fst r)) = []
  /\ vadState (session (fst r)) = js "silence".
Proof. repeat split. Qed.

(** A session id that names a directory which does not exist: the
    temporary file cannot be written, and every flush ends the same way,
    also one dispatched by the grace timer on a paused session. *)
Example scenario_missing_directory :
  let enoent := {| faulty := true;
                   faultMessage := js "ENOENT: no such file or directory" |} in
  let r := run (fst (start 0 (js "team/s1") demo_config OPEN))
             [(1, runtime_state enoent);
              (5, recv_audio (js "AAAA") 160); (6, recv_vad (js "end"));
              (7, recv_pause); (106, timeout_grace)] in
  sent (snd r) =
    [ status paused None;
      status translating None;
      error (js "Processing failed: ENOENT: no such file or directory");
      status listening None ]
  /\ flights (fst r) = []
  /\ state (session (fst r)) = listening
  /\ audioBuffer (session (fst r)) = [].
Proof. repeat split. Qed.

(** ** Pause *)

(** X14. While the session is paused, audio frames are dropped: a
    schedule of audio frames alone leaves the session as it is, buffer
    included, and has no effect. *)
Theorem paused_drops_audio (schedule : list (Z * Event)) (w : World) :
  state (session w) = paused ->
  audioOnly schedule = true ->
  run w schedule = (w, []).
Proof.
  intros Hp. induction schedule as [|[now e] rest IH]; intros Hall; [reflexivity|].
  cbn [audioOnly forallb snd] in Hall. apply andb_true_iff in Hall as [He Hrest].
  destruct e as [pcm n| | | | | | | | | | | | |]; try discriminate.
  rewrite run_cons.
  assert (Hstep : handle now (recv_audio pcm n) w = (w, [])).
  { cbn [handle]. unfold processAudioChunk, cond, skip.
    now rewrite bool_decide_eq_true_2. }
  rewrite Hstep. cbn [fst snd]. now rewrite (IH Hrest).
Qed.

Lemma paused_drops_audio_witness :
  run (fst (handle 6 recv_pause demo_start))
      [(7, recv_audio (js "AAAA") 24000); (8, recv_audio (js "AAAA") 24000)]
  = (fst (handle 6 recv_pause demo_start), []).
Proof.
  apply (paused_drops_audio
           [(7, recv_audio (js "AAAA") 24000); (8, recv_audio (js "AAAA") 24000)]
           (fst (handle 6 recv_pause demo_start))); reflexivity.
Defined.

(** ** Configuration *)

(** X15. No frame, timer or provider answer changes the session's
    configuration: the language pair, the mode and the sample rate are
    those of the [start] frame for as long as the session lives. *)
Theorem config_is_fixed
    (now : Z) (sid : jsstring) (cfg : Config) (r : ReadyState)
    (schedule : list (Z * Event)) :
  config (session (fst (run (fst (start now sid cfg r)) schedule))) = cfg.
Proof.
  assert (Hrun : forall sch w,
            config (session (fst (run w sch))) = config (session w)).
  { induction sch as [|[n e] rest IH]; intros w; [reflexivity|].
    rewrite run_cons. cbn [fst]. rewrite IH. apply handle_configured. }
  rewrite Hrun. unfold start. rewrite updateState_eq.
  destruct (deliverable _); reflexivity.
Qed.

(** ** The sweep and the objects *)

Lemma sweep_entry_sweptHeap (now : Z) (p r : Process) (m : gmap jsstring nat)
    (k : jsstring) (x : nat) :
  m !! k = None -> sweptHeap now p r m ->
  sweptHeap now p (sweep_entry now k x r) (<[k := x]> m).
Proof.
  intros Hk [Hobj Hvis].
  assert (Hkeep : forall oid,
            heap r !! oid = heap p !! oid
            \/ exists w k0, heap p !! oid = Some w /\ <[k := x]> m !! k0 = Some oid
                            /\ expired now w = true
                            /\ heap r !! oid = Some (fst (stop w))).
  { intros oid. destruct (Hobj oid) as [H|(w & k0 & Hp & Hm & Hex & Hr)]; [now left|].
    right. exists w, k0. repeat split; try assumption.
    rewrite lookup_insert_ne; [exact Hm | congruence]. }
  unfold sweep_entry.
  destruct (heap r !! x) as [wr|] eqn:Hrx.
  - assert (Hwr : exists w0, heap p !! x = Some w0
                             /\ expired now wr = expired now w0
                             /\ fst (stop wr) = fst (stop w0)).
    { destruct (Hobj x) as [H|(w & k0 & Hp & _ & Hex & Hr)].
      - exists wr. rewrite <- H, Hrx. auto.
      - exists w. rewrite Hrx in Hr. injection Hr as ->. auto. }
    destruct Hwr as (w0 & Hpx & Hexp & Hstop).
    destruct (expired now wr) eqn:Hex.
    + assert (Hlt : (x < length (heap r))%nat) by (eapply lookup_lt_Some; eassumption).
      split; cbn [heap].
      * intros oid. destruct (decide (oid = x)) as [->|Hne].
        -- right. exists w0, k. rewrite lookup_insert_eq.
           rewrite list_lookup_insert_eq by exact Hlt.
           rewrite Hstop. auto.
        -- rewrite list_lookup_insert_ne by congruence. apply Hkeep.
      * intros k0 oid w Hm Hp Hw.
        destruct (decide (oid = x)) as [->|Hne].
        -- rewrite list_lookup_insert_eq by exact Hlt.
           rewrite Hstop. congruence.
        -- rewrite list_lookup_insert_ne by congruence.
           destruct (decide (k0 = k)) as [->|Hk0].
           ++ rewrite lookup_insert_eq in Hm. congruence.
           ++ rewrite lookup_insert_ne in Hm by congruence. now apply (Hvis k0).
    + split; [exact Hkeep|].
      intros k0 oid w Hm Hp Hw.
      destruct (decide (k0 = k)) as [->|Hk0].
      * rewrite lookup_insert_eq in Hm. injection Hm as <-. congruence.
      * rewrite lookup_insert_ne in Hm by congruence. now apply (Hvis k0).
  - split; [exact Hkeep|].
    intros k0 oid w Hm Hp Hw.
    destruct (decide (k0 = k)) as [->|Hk0].
    + rewrite lookup_insert_eq in Hm. injection Hm as <-.
      destruct (Hobj x) as [H|(w' & k' & _ & _ & _ & Hr)]; congruence.
    + rewrite lookup_insert_ne in Hm by congruence. now apply (Hvis k0).
Qed.

Lemma sweep_sweptHeap (now : Z) (p : Process) :
  sweptHeap now p (sweep now p) (sessions p).
Proof.
  unfold sweep.
  apply (map_fold_weak_ind (sweptHeap now p) (sweep_entry now) p).
  - split; [now left|]. intros k oid w Hk. now rewrite lookup_empty in Hk.
  - intros k oid m r Hk IH. now apply sweep_entry_sweptHeap.
Qed.

(** X16. The sweep stops what it removes: a registered session whose
    [lastActivity] is more than 30 minutes old is taken out of the map and
    its object is marked inactive, with nothing else about it changed. *)
Theorem sweep_stops_expired (now : Z) (p : Process) (k : jsstring) (oid : nat) (w : World) :
  sessions p !! k = Some oid ->
  heap p !! oid = Some w ->
  TIMEOUT < now - lastActivity (session w) ->
  sessions (sweep now p) !! k = None
  /\ heap (sweep now p) !! oid = Some (with_session (set_isActive false) w).
Proof.
  intros Hk Hw Hold.
  assert (Hex : expired now w = true) by (unfold expired; now apply Z.ltb_lt).
  split.
  - rewrite sweep_lookup, Hk, Hw, Hex. reflexivity.
  - exact (proj2 (sweep_sweptHeap now p) k oid w Hk Hw Hex).
Qed.

Lemma sweep_stops_expired_witness :
  sessions (sweep 2000000 demo_process) !! js "s1" = None
  /\ heap (sweep 2000000 demo_process) !! 0%nat =
     Some (with_session (set_isActive false) demo_start).
Proof.
  apply (sweep_stops_expired 2000000 demo_process (js "s1") 0 demo_start);
    reflexivity.
Defined.

(** X17. The sweep leaves every other object exactly as it is: one that
    has not expired, and one that no entry of the map refers to - such as
    a session whose id was taken over by a later [start] - however old. *)
Theorem sweep_spares_the_rest (now : Z) (p : Process) (oid : nat) :
  ((forall w, heap p !! oid = Some w -> expired now w = false)
   \/ (forall k, sessions p !! k <> Some oid)) ->
  heap (sweep now p) !! oid = heap p !! oid.
Proof.
  intros Hspare.
  destruct (proj1 (sweep_sweptHeap now p) oid) as [H|(w & k & Hw & Hk & Hex & _)];
    [exact H|].
  destruct Hspare as [Hfresh|Hunreg].
  - rewrite (Hfresh w Hw) in Hex. discriminate.
  - now destruct (Hunreg k).
Qed.

Lemma sweep_spares_the_rest_witness :
  sessions demo_twice !! js "s1" = Some 1%nat
  /\ heap (sweep 2000000 demo_twice) !! 0%nat = heap demo_twice !! 0%nat
  /\ (isActive ∘ session) <$> heap (sweep 2000000 demo_twice) !! 0%nat = Some true.
Proof.
  assert (Hreg : sessions demo_twice !! js "s1" = Some 1%nat) by reflexivity.
  assert (H : heap (sweep 2000000 demo_twice) !! 0%nat = heap demo_twice !! 0%nat).
  { apply (sweep_spares_the_rest 2000000 demo_twice 0). right.
    intros k Hk. destruct (decide (k = js "s1")) as [->|Hne].
    - rewrite Hreg in Hk. discriminate.
    - change (sessions demo_twice)
        with (<[js "s1" := 1%nat]> (<[js "s1" := 0%nat]> (∅ : gmap jsstring nat)))
        in Hk.
      rewrite !lookup_insert_ne in Hk by congruence.
      rewrite lookup_empty in Hk. discriminate. }
  split; [exact Hreg|]. split; [exact H|]. rewrite H. reflexivity.
Defined.

Lemma sweep_nothing_expired (now : Z) (p : Process) :
  (forall k oid w, sessions p !! k = Some oid -> heap p !! oid = Some w ->
                   expired now w = false) ->
  sweep now p = p.
Proof.
  unfold sweep.
  apply (map_fold_weak_ind
           (fun r m => (forall k oid w, m !! k = Some oid -> heap p !! oid = Some w ->
                                        expired now w = false) -> r = p)
           (sweep_entry now) p).
  - reflexivity.
  - intros k x m r Hk IH Hfresh.
    rewrite IH.
    + unfold sweep_entry. destruct (heap p !! x) as [w|] eqn:Hx; [|reflexivity].
      rewrite (Hfresh k x w); [reflexivity | apply lookup_insert_eq | exact Hx].
    + intros k0 oid w Hm. apply (Hfresh k0).
      rewrite lookup_insert_ne; [exact Hm | congruence].
Qed.

(** X18. Sweeping twice at the same clock is sweeping once: after a sweep
    no registered session is expired, so a second sweep changes neither
    the map nor any object. *)
Theorem sweep_idempotent (now : Z) (p : Process) :
  sweep now (sweep now p) = sweep now p.
Proof.
  apply sweep_nothing_expired. intros k oid w' Hk Hw'.
  rewrite sweep_lookup in Hk.
  destruct (sessions p !! k) as [oid0|] eqn:Hk0; [|discriminate].
  destruct (proj1 (sweep_sweptHeap now p) oid) as [H|(w & k1 & Hw & _ & Hex & _)].
  - rewrite H in Hw'.
    destruct (heap p !! oid0) as [w0|] eqn:Hw0.
    + destruct (expired now w0) eqn:Hex; [discriminate|].
      injection Hk as ->. congruence.
    + injection Hk as ->. congruence.
  - destruct (heap p !! oid0) as [w0|] eqn:Hw0.
    + destruct (expired now w0) eqn:Hex0; [discriminate|].
      injection Hk as ->. congruence.
    + injection Hk as ->. congruence.
Qed.

(** ** Connections and the registry *)

(** X19. An event of one session acts on its own object as [handle] does
    and on no other object; unless it is a stop, a close or a socket
    error, it leaves the map of sessions alone. *)
Theorem on_event_isolated (now : Z) (oid : nat) (e : Event) (p : Process) (w : World) :
  heap p !! oid = Some w ->
  heap (fst (on_event now (Some oid) e p)) !! oid = Some (fst (handle now e w))
  /\ snd (on_event now (Some oid) e p) = snd (handle now e w)
  /\ (forall j, j <> oid -> heap (fst (on_event now (Some oid) e p)) !! j = heap p !! j)
  /\ (deactivates e = false -> sessions (fst (on_event now (Some oid) e p)) = sessions p).
Proof.
  intros Hw.
  assert (Hlt : (oid < length (heap p))%nat) by (eapply lookup_lt_Some; eassumption).
  unfold on_event, on_object. rewrite Hw.
  destruct (handle now e w) as [w' out] eqn:Hh. cbn [fst snd].
  assert (Hun : heap (unregister oid
                 {| heap := <[oid := w']> (heap p); sessions := sessions p |})
                = <[oid := w']> (heap p)).
  { unfold unregister. cbn [heap]. rewrite list_lookup_insert_eq by exact Hlt.
    reflexivity. }
  destruct e; cbn [fst snd deactivates heap sessions]; rewrite ?Hun;
    (split; [now apply list_lookup_insert_eq|]);
    (split; [reflexivity|]);
    (split; [intros j Hj; now apply list_lookup_insert_ne|]);
    first [reflexivity | discriminate].
Qed.

Lemma on_event_isolated_witness :
  heap (fst (on_event 11 (Some 1%nat) (recv_audio (js "AAAA") 24000) demo_twice)) !! 0%nat
  = heap demo_twice !! 0%nat
  /\ sessions (fst (on_event 11 (Some 1%nat) (recv_audio (js "AAAA") 24000) demo_twice))
     = sessions demo_twice.
Proof.
  destruct (on_event_isolated 11 1 (recv_audio (js "AAAA") 24000) demo_twice
              (fst (start 10 (js "s1") demo_config OPEN)) eq_refl)
    as (_ & _ & Hothers & Hmap).
  split; [apply Hothers; discriminate | apply Hmap; reflexivity].
Defined.

(** X20. [start] registers the new session under its id and nothing else
    changes: the id now leads to the new object, every other id leads
    where it led, and every object that existed - the previous holder of
    the id included - is left as it was, still active if it was. *)
Theorem on_start_registers (now : Z) (sid : jsstring) (cfg : Config) (r : ReadyState)
    (p : Process) :
  let p' := fst (fst (on_start now sid cfg r p)) in
  snd (fst (on_start now sid cfg r p)) = Some (length (heap p))
  /\ sessions p' !! sid = Some (length (heap p))
  /\ heap p' !! length (heap p) = Some (fst (start now sid cfg r))
  /\ (forall k, k <> sid -> sessions p' !! k = sessions p !! k)
  /\ (forall j w, heap p !! j = Some w -> heap p' !! j = Some w).
Proof.
  cbv zeta. unfold on_start.
  destruct (start now sid cfg r) as [w out]. cbn [fst snd heap sessions].
  split; [reflexivity|]. split; [apply lookup_insert_eq|]. split.
  - rewrite lookup_app_r by lia. now rewrite Nat.sub_diag.
  - split.
    + intros k Hk. now apply lookup_insert_ne.
    + intros j w0 Hj. now apply lookup_app_l_Some.
Qed.

(** X21. A stop unregisters by id, not by object: it stops its own
    session and removes whatever the map holds under that session's id.
    When a later [start] has taken the id over, the stop of the older
    connection removes the newer session from the map and leaves it
    running. *)
Theorem stop_unregisters_by_id (now : Z) (oid : nat) (p : Process) (w : World) :
  heap p !! oid = Some w ->
  let p' := fst (on_event now (Some oid) recv_stop p) in
  sessions p' = delete (sessionId (session w)) (sessions p)
  /\ heap p' !! oid = Some (with_session (set_isActive false) w)
  /\ (forall j, j <> oid -> heap p' !! j = heap p !! j).
Proof.
  intros Hw. cbv zeta.
  assert (Hlt : (oid < length (heap p))%nat) by (eapply lookup_lt_Some; eassumption).
  unfold on_event, on_object. rewrite Hw. cbn [handle stop modify fst snd].
  unfold unregister. cbn [heap sessions].
  rewrite list_lookup_insert_eq by exact Hlt. cbn [heap sessions].
  split; [reflexivity|]. split; [now apply list_lookup_insert_eq|].
  intros j Hj. now apply list_lookup_insert_ne.
Qed.

Lemma stop_unregisters_by_id_witness :
  sessions demo_twice !! js "s1" = Some 1%nat
  /\ sessions (fst (on_event 11 (Some 0%nat) recv_stop demo_twice)) !! js "s1" = None
  /\ heap (fst (on_event 11 (Some 0%nat) recv_stop demo_twice)) !! 1%nat
     = heap demo_twice !! 1%nat.
Proof.
  destruct (stop_unregisters_by_id 11 0 demo_twice demo_start eq_refl)
    as (Hmap & _ & Hothers).
  split; [reflexivity|]. split.
  - rewrite Hmap. apply lookup_delete_eq.
  - apply Hothers. discriminate.
Defined.
